(** * Validator-pharmacy: the domain rule set of [validator.js]

    A shallow embedding of the rules that [validator.js] registers in
    its [pharmacy.Store], and of the helpers of [utils.js] they call.

    Conventions of the embedding.
    - A JavaScript value is a term of [value].  An object is the ordered
      list of its own enumerable properties together with the properties
      it inherits through its prototype chain; built-in prototype members
      ([toString], [constructor], ...) are not part of the model.
    - A number is a [num]: [NaN], the two infinities, or a finite
      rational, the value of a double.  Reading a number off a string
      rounds to the nearest double, ties to even.
    - A string is the [string] of its bytes in UTF-8.  White space and
      [length] are those of the characters the bytes encode;
      [toLowerCase] and [toUpperCase] are modelled on the ASCII letters.
    - Property access ([v[k]], [k in v], [hasOwnProperty]) is modelled
      on objects and arrays; of the properties that strings and
      functions have of themselves, only the [length] of a string is,
      where a rule asks for it.
    - A rule that can raise (a [TypeError], a rejected promise) returns a
      [result]; a promise is identified with the value it settles to.
    - The rules receive [(accept, value, field)] as in the source.  The
      capability predicates [field.isString()], ... read [field.value],
      so a rule is stated at a field that holds the value it is given:
      [with_value f v]. *)

From Stdlib Require Import List Bool Arith ZArith QArith Qround Lia Lqa.
From Stdlib Require Import Ascii String DecimalString DecimalNat Permutation.
Import ListNotations.

Close Scope Q_scope.
Open Scope string_scope.
Open Scope list_scope.

(** ** Errors *)

Inductive result (A : Type) : Type :=
| Ok (a : A)
| Throw.

Arguments Ok {A} a.
Arguments Throw {A}.

Definition bind {A B : Type} (m : result A) (k : A -> result B) : result B :=
  match m with
  | Ok a => k a
  | Throw => Throw
  end.

Notation "x <- m ;; k" := (bind m (fun x => k))
  (at level 61, m at next level, right associativity).

(** ** Numbers *)

Inductive num : Type :=
| NaN
| NInf
| Fin (q : Q)
| PInf.

(** [a < b] of JavaScript on numbers: false as soon as one side is [NaN]. *)
Definition num_ltb (a b : num) : bool :=
  match a, b with
  | NaN, _ | _, NaN => false
  | _, NInf => false
  | NInf, _ => true
  | PInf, _ => false
  | Fin _, PInf => true
  | Fin x, Fin y => negb (Qle_bool y x)
  end.

(** [a <= b] of JavaScript on numbers. *)
Definition num_leb (a b : num) : bool :=
  match a, b with
  | NaN, _ | _, NaN => false
  | NInf, _ => true
  | _, PInf => true
  | _, NInf => false
  | PInf, _ => false
  | Fin x, Fin y => Qle_bool x y
  end.

(** [a >= b] is [b <= a]. *)
Definition num_geb (a b : num) : bool := num_leb b a.

Definition is_nan (a : num) : bool :=
  match a with NaN => true | _ => false end.

Definition num_of_Z (z : Z) : num := Fin (inject_Z z).

(** ** Values *)

#[local] Set Warnings "-register-all".

Inductive value : Type :=
| VUndefined
| VNull
| VBool (b : bool)
| VNum (n : num)
| VStr (s : string)
| VArr (items : list value)
| VObj (own : list (string * value)) (inherited : list (string * value))
| VDate (time : num)
| VFunc (ret : value).

(** An object literal: own properties only. *)
Definition obj (own : list (string * value)) : value := VObj own [].

Definition typeof (v : value) : string :=
  match v with
  | VUndefined => "undefined"
  | VNull => "object"
  | VBool _ => "boolean"
  | VNum _ => "number"
  | VStr _ => "string"
  | VArr _ => "object"
  | VObj _ _ => "object"
  | VDate _ => "object"
  | VFunc _ => "function"
  end.

(** [v === s] for a string literal [s]. *)
Definition is_str (v : value) (s : string) : bool :=
  match v with
  | VStr t => String.eqb t s
  | _ => false
  end.

(** [v === null]. *)
Definition is_null (v : value) : bool :=
  match v with VNull => true | _ => false end.

(** [Boolean(v)]. *)
Definition truthy (v : value) : bool :=
  match v with
  | VUndefined | VNull => false
  | VBool b => b
  | VNum NaN => false
  | VNum (Fin q) => negb (Qeq_bool q 0%Q)
  | VNum _ => true
  | VStr s => negb (String.eqb s "")
  | _ => true
  end.

(** [a && b]. *)
Definition js_and (a b : value) : value := if truthy a then b else a.

(** ** Property access *)

Fixpoint assoc (k : string) (l : list (string * value)) : option value :=
  match l with
  | [] => None
  | (k', v) :: l' => if String.eqb k' k then Some v else assoc k l'
  end.

Definition keys_of (l : list (string * value)) : list string := map fst l.

Definition string_of_nat (n : nat) : string :=
  NilZero.string_of_uint (Nat.to_uint n).

(** The array index a property key denotes, when it is the canonical
    decimal form of one. *)
Definition index_of_key (k : string) : option nat :=
  match NilZero.uint_of_string k with
  | Some u => let n := Nat.of_uint u in
              if String.eqb (string_of_nat n) k then Some n else None
  | None => None
  end.

(** The own property [k] of [v], if there is one. *)
Definition own_get (v : value) (k : string) : option value :=
  match v with
  | VObj own _ => assoc k own
  | VArr items =>
      if String.eqb k "length" then Some (VNum (num_of_Z (Z.of_nat (List.length items))))
      else match index_of_key k with
           | Some i => nth_error items i
           | None => None
           end
  | _ => None
  end.

(** [hasOwnProperty.call(v, k)]. *)
Definition has_own (v : value) (k : string) : bool :=
  match own_get v k with
  | Some _ => true
  | None => false
  end.

(** [v[k]]: raises on [undefined] and [null], otherwise the own property,
    else the inherited one, else [undefined]. *)
Definition get (v : value) (k : string) : result value :=
  match v with
  | VUndefined | VNull => Throw
  | VObj own inherited =>
      match assoc k own with
      | Some x => Ok x
      | None => match assoc k inherited with
                | Some x => Ok x
                | None => Ok VUndefined
                end
      end
  | _ => match own_get v k with
         | Some x => Ok x
         | None => Ok VUndefined
         end
  end.

(** [k in v]: raises unless [v] is an object. *)
Definition js_in (k : string) (v : value) : result bool :=
  match v with
  | VObj own inherited =>
      Ok (match assoc k own, assoc k inherited with
          | None, None => false
          | _, _ => true
          end)
  | VArr _ => Ok (has_own v k)
  | VDate _ | VFunc _ => Ok false
  | _ => Throw
  end.

(** [_.isObject(v)]. *)
Definition lodash_isObject (v : value) : bool :=
  match v with
  | VArr _ | VObj _ _ | VDate _ | VFunc _ => true
  | _ => false
  end.

(** [_.keys(v)] of an object: its own enumerable property names. *)
Definition lodash_keys (v : value) : list string :=
  match v with
  | VObj own _ => keys_of own
  | VArr items => map string_of_nat (seq 0 (List.length items))
  | _ => []
  end.

(** ** Reports and fields *)

Record report : Type := mkReport {
  report_value : value;
  issues : list value
}.

Record field : Type := mkField {
  path : list value;
  fvalue : value;
  freport : report
}.

Definition hasIssues (r : report) : bool :=
  match issues r with [] => false | _ => true end.

(** The field [f] once it holds [v]. *)
Definition with_value (f : field) (v : value) : field :=
  mkField (path f) v (freport f).

(** [field.report.value = v]. *)
Definition set_report_value (f : field) (v : value) : field :=
  mkField (path f) (fvalue f) (mkReport v (issues (freport f))).

(** A fresh field for [v] at [p]. *)
Definition new_field (p : list value) (v : value) : field :=
  mkField p v (mkReport v []).

(** The capability predicates of the store ([field: { ... }]). *)
Definition isString (f : field) : bool := String.eqb (typeof (fvalue f)) "string".
Definition isBool (f : field) : bool := String.eqb (typeof (fvalue f)) "boolean".
Definition isNumber (f : field) : bool := String.eqb (typeof (fvalue f)) "number".
Definition isObject (f : field) : bool := String.eqb (typeof (fvalue f)) "object".
Definition isArray (f : field) : bool :=
  match fvalue f with VArr _ => true | _ => false end.
Definition isNull (f : field) : bool := is_null (fvalue f).
Definition isUndefined (f : field) : bool := String.eqb (typeof (fvalue f)) "undefined".

(** ** Strings *)

Definition is_upper (c : ascii) : bool :=
  let n := nat_of_ascii c in (65 <=? n)%nat && (n <=? 90)%nat.

Definition is_lower (c : ascii) : bool :=
  let n := nat_of_ascii c in (97 <=? n)%nat && (n <=? 122)%nat.

Definition is_digit (c : ascii) : bool :=
  let n := nat_of_ascii c in (48 <=? n)%nat && (n <=? 57)%nat.

(** White space and line terminators of one byte: tab, line feed,
    vertical tab, form feed, carriage return, space. *)
Definition is_space (c : ascii) : bool :=
  let n := nat_of_ascii c in
  ((9 <=? n)%nat && (n <=? 13)%nat) || (n =? 32)%nat.

Definition lower_char (c : ascii) : ascii :=
  if is_upper c then ascii_of_nat (nat_of_ascii c + 32) else c.

Definition upper_char (c : ascii) : ascii :=
  if is_lower c then ascii_of_nat (nat_of_ascii c - 32) else c.

Fixpoint map_string (g : ascii -> ascii) (s : string) : string :=
  match s with
  | EmptyString => EmptyString
  | String c s' => String (g c) (map_string g s')
  end.

Fixpoint filter_string (p : ascii -> bool) (s : string) : string :=
  match s with
  | EmptyString => EmptyString
  | String c s' => if p c then String c (filter_string p s') else filter_string p s'
  end.

(** [s.toLowerCase()] and [s.toUpperCase()]. *)
Definition toLowerCase (s : string) : string := map_string lower_char s.
Definition toUpperCase (s : string) : string := map_string upper_char s.

(** White space and line terminators of two and of three bytes:
    U+00A0; U+1680, U+2000 to U+200A, U+2028, U+2029, U+202F, U+205F,
    U+3000 and U+FEFF. *)
Definition is_space2 (c1 c2 : ascii) : bool :=
  (nat_of_ascii c1 =? 194)%nat && (nat_of_ascii c2 =? 160)%nat.

Definition is_space3 (c1 c2 c3 : ascii) : bool :=
  let n1 := nat_of_ascii c1 in
  let n2 := nat_of_ascii c2 in
  let n3 := nat_of_ascii c3 in
  ((n1 =? 225) && (n2 =? 154) && (n3 =? 128))%nat
  || ((n1 =? 226) && (n2 =? 128)
      && (((128 <=? n3) && (n3 <=? 138)) || (n3 =? 168) || (n3 =? 169) || (n3 =? 175)))%nat
  || ((n1 =? 226) && (n2 =? 129) && (n3 =? 159))%nat
  || ((n1 =? 227) && (n2 =? 128) && (n3 =? 128))%nat
  || ((n1 =? 239) && (n2 =? 187) && (n3 =? 191))%nat.

(** What follows the white space character or line terminator that
    starts a string, if one does. *)
Definition white_char (s : string) : option string :=
  match s with
  | String c1 s1 =>
      if is_space c1 then Some s1
      else
        match s1 with
        | String c2 s2 =>
            if is_space2 c1 c2 then Some s2
            else
              match s2 with
              | String c3 s3 => if is_space3 c1 c2 c3 then Some s3 else None
              | EmptyString => None
              end
        | EmptyString => None
        end
  | EmptyString => None
  end.

(** A byte that starts a white space character or line terminator. *)
Definition starts_white (c : ascii) : bool :=
  let n := nat_of_ascii c in
  is_space c
  || ((n =? 194) || (n =? 225) || (n =? 226) || (n =? 227) || (n =? 239))%nat.

(** Drops the white space and the line terminators that start a
    string. *)
Fixpoint skip_white_space (s : string) : string :=
  match s with
  | String c1 s1 =>
      if is_space c1 then skip_white_space s1
      else
        match s1 with
        | String c2 s2 =>
            if is_space2 c1 c2 then skip_white_space s2
            else
              match s2 with
              | String c3 s3 =>
                  if is_space3 c1 c2 c3 then skip_white_space s3 else s
              | EmptyString => s
              end
        | EmptyString => s
        end
  | EmptyString => EmptyString
  end.

(** The string is made of white space and line terminators only. *)
Definition all_white (s : string) : bool :=
  match skip_white_space s with
  | EmptyString => true
  | String _ _ => false
  end.

(** Drops the white space and the line terminators that end [s]: all
    that follows the last character that is neither. *)
Fixpoint trim_end (s : string) : string :=
  match s with
  | EmptyString => EmptyString
  | String c s' => if all_white s then EmptyString else String c (trim_end s')
  end.

(** [s.trim()]. *)
Definition trim (s : string) : string := trim_end (skip_white_space s).

(** [s.length]: the number of UTF-16 code units of the string.  A
    character of one to three bytes is one unit, a character of four
    bytes is a surrogate pair; the bytes that continue a character
    count with the byte that starts it. *)
Definition utf16_units (c : ascii) : nat :=
  let n := nat_of_ascii c in
  if (n <? 128)%nat then 1%nat
  else if (n <? 192)%nat then 0%nat
  else if (n <? 240)%nat then 1%nat
  else 2%nat.

Fixpoint utf16_length (s : string) : nat :=
  match s with
  | EmptyString => 0%nat
  | String c s' => (utf16_units c + utf16_length s')%nat
  end.

(** [s.split(sep)] for a one-character separator: the pieces between
    the separators, one more than there are separators. *)
Fixpoint split (sep : ascii) (s : string) : list string :=
  match s with
  | EmptyString => [EmptyString]
  | String c s' =>
      if Ascii.eqb c sep then EmptyString :: split sep s'
      else match split sep s' with
           | t :: ts => String c t :: ts
           | [] => [String c EmptyString]
           end
  end.

(** ** Numbers of strings

    [parseFloat] and [parseInt] read a literal off the start of a
    string and return the double nearest to the number the literal
    writes (a tie going to the even significand, a number beyond the
    range going to an infinity). *)

(** The integer nearest to [a / b], for [0 <= a] and [0 < b], a tie
    going to the even one. *)
Definition round_div (a b : Z) : Z :=
  let q := (a / b)%Z in
  match (2 * (a mod b) ?= b)%Z with
  | Lt => q
  | Gt => (q + 1)%Z
  | Eq => if Z.even q then q else (q + 1)%Z
  end.

(** The exponent of the last binary digit a double keeps of the
    positive number [n / d]: 52 below that of its leading digit, and
    not below -1074, where doubles stop. *)
Definition double_exponent (n d : Z) : Z :=
  let k := (Z.log2 n - Z.log2 d)%Z in
  let reaches :=
    if (0 <=? k)%Z then (d * 2 ^ k <=? n)%Z else (d <=? n * 2 ^ (- k))%Z in
  Z.max ((if reaches then k else k - 1) - 52) (-1074).

(** The double nearest to the rational [q]. *)
Definition round_to_double (q : Q) : num :=
  let n := Z.abs (Qnum q) in
  let d := Z.pos (Qden q) in
  if (n =? 0)%Z then Fin 0
  else
    let e := double_exponent n d in
    let m :=
      if (e <? 0)%Z then round_div (n * 2 ^ (- e)) d
      else round_div n (d * 2 ^ e) in
    let negative := (Qnum q <? 0)%Z in
    if (1024 <=? Z.log2 m + e)%Z then (if negative then NInf else PInf)
    else
      let m' := if negative then (- m)%Z else m in
      Fin (if (e <? 0)%Z then Qred (Qmake m' (Z.to_pos (2 ^ (- e))))
           else inject_Z (m' * 2 ^ e)).

Definition digit_val (c : ascii) : Z := Z.of_nat (nat_of_ascii c - 48).

(** Reads the digits that start [s]: the number they write after [acc],
    how many they are, and what follows them. *)
Fixpoint digits (acc : Z) (n : nat) (s : string) : Z * nat * string :=
  match s with
  | String c s' =>
      if is_digit c then digits (10 * acc + digit_val c) (S n) s' else (acc, n, s)
  | EmptyString => (acc, n, s)
  end.

Definition pow10 (z : Z) : Q :=
  if (0 <=? z)%Z then inject_Z (10 ^ z) else Qinv (inject_Z (10 ^ (- z))).

(** The exponent part that starts [s], worth [0] when there is none:
    [e] or [E], an optional sign, at least one digit. *)
Definition exponent (s : string) : Z :=
  match s with
  | String c s' =>
      if Ascii.eqb c "e" || Ascii.eqb c "E" then
        let '(neg, s'') :=
          match s' with
          | String "-" t => (true, t)
          | String "+" t => (false, t)
          | _ => (false, s')
          end in
        let '(e, n, _) := digits 0 0 s'' in
        if (n =? 0)%nat then 0%Z else if neg then (- e)%Z else e
      else 0%Z
  | EmptyString => 0%Z
  end.

Definition parse_unsigned (s : string) : num :=
  if prefix "Infinity" s then PInf
  else
    let '(m, ni, r) := digits 0 0 s in
    let '(m, nf, r) :=
      match r with
      | String "." r' => digits m 0 r'
      | _ => (m, 0%nat, r)
      end in
    if (ni + nf =? 0)%nat then NaN
    else round_to_double (inject_Z m * pow10 (exponent r - Z.of_nat nf)).

Definition num_opp (a : num) : num :=
  match a with
  | NaN => NaN
  | NInf => PInf
  | PInf => NInf
  | Fin q => Fin (- q)
  end.

(** [parseFloat(s)]: the longest prefix of the string, after its
    leading white space, that is a decimal literal: a sign, then
    [Infinity] or digits with an optional fraction and an optional
    exponent; [NaN] when there is none. *)
Definition parseFloat (s : string) : num :=
  match skip_white_space s with
  | String "-" s' => num_opp (parse_unsigned s')
  | String "+" s' => parse_unsigned s'
  | s' => parse_unsigned s'
  end.

(** ** The outcome of a rule *)

(** Modelled from the spec: the Field executor that turns what a
    validator returns into issues belongs to the [pharmacy] package and
    is not part of the source.  After section 4.2: [true] gives no
    issue, no determination ([undefined]) passes, [false] gives one
    issue with accepted and current set generically, a sequence of
    issues is appended as it is, and any other value gives one issue
    carrying that detail. *)
Definition generic_issue (rule : string) (accept : value) (f : field) : value :=
  obj [("path", VArr (path f)); ("rule", VStr rule);
       ("accept", accept); ("current", fvalue f)].

Definition outcome_issues (rule : string) (accept : value) (f : field)
    (outcome : value) : list value :=
  match outcome with
  | VBool true => []
  | VUndefined => []
  | VBool false => [generic_issue rule accept f]
  | VArr l => l
  | detail => [detail]
  end.

(** ** Validators *)

Section TypeRule.

(** [ObjectId.isValid] of the [mongodb] driver. *)
Variable ObjectId_isValid : value -> bool.

Definition is_date (v : value) : bool :=
  match v with VDate _ => true | _ => false end.

(** [type(accept, value, field)]. *)
Definition type (accept v : value) (f : field) : value :=
  if String.eqb (typeof v) "undefined" then VBool true
  else
    let result :=
      if is_str accept "object" then isObject f || isNull f
      else if is_str accept "array" then isArray f
      else if is_str accept "string" then isString f || isNull f
      else if is_str accept "objectId" then is_null v || ObjectId_isValid v
      else if is_str accept "date" then
        is_str v "" || is_null v || (String.eqb (typeof v) "object" && is_date v)
      else is_str accept (typeof v) in
    if negb result then
      obj [("value", v); ("accept", accept); ("current", VStr (typeof v))]
    else VBool true.

End TypeRule.

(** ** [_.has] of lodash

    lodash reads the second argument of [_.has] as a path: a name that
    is a key is looked up as an own property, and a name in path syntax
    ([a.b], [a[0]]) is parsed and followed from object to object.  The
    test for path syntax and the walk along a parsed path are lodash's
    own and are taken as they are. *)

Section Lodash.

(** [reIsDeepProp.test]: the name contains path syntax. *)
Variable reIsDeepProp : string -> bool.

(** [hasPath(object, name, baseHas)] for a name that is no key: whether
    the keys that [stringToPath(name)] gives lead through the object,
    from own property to own property. *)
Variable has_parsed_path : value -> string -> bool.

(** [\w]. *)
Definition is_word_char (c : ascii) : bool :=
  is_lower c || is_upper c || is_digit c || Ascii.eqb c "_".

(** [reIsPlainProp.test], for [/^\w*$/]. *)
Fixpoint reIsPlainProp (s : string) : bool :=
  match s with
  | EmptyString => true
  | String c s' => is_word_char c && reIsPlainProp s'
  end.

(** [object != null && name in Object(object)]. *)
Definition in_object (name : string) (object : value) : bool :=
  match object with
  | VObj own inherited =>
      match assoc name own, assoc name inherited with
      | None, None => false
      | _, _ => true
      end
  | _ => has_own object name
  end.

(** The part of [isKey] that looks at the name only. *)
Definition key_name (name : string) : bool :=
  reIsPlainProp name || negb (reIsDeepProp name).

(** [isKey(name, object)]. *)
Definition isKey (name : string) (object : value) : bool :=
  key_name name || in_object name object.

(** [_.has(v, name)]: [hasPath(v, name, baseHas)], whose path
    [castPath(name, v)] is the name itself when [isKey(name, v)].  (The
    last resort of [hasPath] for a key that is not owned, an index
    within the [length] of an array, cannot apply: an array owns every
    index below its length.) *)
Definition lodash_has (v : value) (name : string) : bool :=
  match v with
  | VUndefined | VNull => false
  | _ => if isKey name v then has_own v name else has_parsed_path v name
  end.

(** The issue [required] pushes for a missing property. *)
Definition missed_issue (name : string) : value :=
  obj [("path", VStr name); ("accept", VBool true);
       ("current", VBool false); ("value", VUndefined)].

(** [_.has(value, name) && value[name] !== '' && value[name] !== null]. *)
Definition is_present (v : value) (name : string) : result bool :=
  if lodash_has v name then
    x <- get v name ;;
    Ok (negb (is_str x "") && negb (is_null x))
  else Ok false.

(** [accept.forEach((name) => { ... missed.push(...) })]. *)
Fixpoint forEach_missed (v : value) (names : list string) (missed : list value)
    : result (list value) :=
  match names with
  | [] => Ok missed
  | name :: rest =>
      present <- is_present v name ;;
      forEach_missed v rest
        (if present then missed else missed ++ [missed_issue name])
  end.

(** [required(accept, value, field)].  The parameter is an array of
    property names, or a falsy value ([None]) that switches the rule off. *)
Definition required (accept : option (list string)) (v : value) (f : field)
    : result value :=
  match accept with
  | None => Ok (VBool true)
  | Some names =>
      if isNull f then Ok (VBool true)
      else if negb (isObject f) then Ok (VBool false)
      else
        missed <- forEach_missed v names [] ;;
        Ok (VArr missed)
  end.

End Lodash.

(** [_.includes(array, lang)] for a string [lang]. *)
Definition lodash_includes (l : list value) (lang : string) : bool :=
  existsb (fun x => is_str x lang) l.

(** [langMap(allowedLangs, value, field)]. *)
Definition langMap (allowedLangs : list value) (v : value) (f : field) : value :=
  if negb (lodash_isObject v) then VBool true
  else
    VBool (existsb
             (fun lang => lodash_includes (allowedLangs ++ [VStr "default"]) lang)
             (lodash_keys v)).

(** [keys.reduce(fn)] without an initial value: the first key seeds the
    accumulator, and an empty array raises a [TypeError]. *)
Definition reduce_no_seed (fn : value -> string -> result value)
    (keys : list string) : result value :=
  match keys with
  | [] => Throw
  | k0 :: rest =>
      fold_left (fun acc key => result <- acc ;; fn result key) rest (Ok (VStr k0))
  end.

(** [langMapRequired(allowedLangs, value, field)]. *)
Definition langMapRequired (allowedLangs : list value) (v : value) (f : field)
    : result value :=
  if negb (lodash_isObject v) then Ok (VBool true)
  else
    reduce_no_seed
      (fun result key => x <- get v key ;; Ok (js_and result (VBool (truthy x))))
      (lodash_keys v).

(** [isCoordsString(accept, value, field)]; [value.split] raises unless
    the value is a string. *)
Definition isCoordsString (accept v : value) (f : field) : result value :=
  match v with
  | VStr s =>
      let coords :=
        filter (fun n => negb (is_nan n)) (map parseFloat (split "," s)) in
      Ok (VBool ((List.length coords =? 2)%nat
                 && num_leb (nth 1 coords NaN) (num_of_Z 90)
                 && num_geb (nth 1 coords NaN) (num_of_Z (-90))
                 && num_leb (nth 0 coords NaN) (num_of_Z 180)
                 && num_geb (nth 0 coords NaN) (num_of_Z (-180))))
  | _ => Throw
  end.

(** ** Composite rules *)

Section Composite.

(** The validation of a child field, which [pharmacy] provides:
    [new field.constructor({path, value, recipe: Recipe.to(schema)})
    .validate()], and [field.child(path, value, schema).validate()].
    It settles to a report, or raises. *)
Variable validate : list value -> value -> value -> result report.

(** The path syntax of lodash, for [_.has]. *)
Variable reIsDeepProp : string -> bool.
Variable has_parsed_path : value -> string -> bool.

(** The order in which the children of [properties] settle: their
    [then] callbacks, which fill the output object, run in that order. *)
Variable settle_order :
  list (option (string * report)) -> list (option (string * report)).

(** The value [properties] resolves for the declared property [name]:
    the supplied one, else the empty string of a property marked
    [acceptEmpty], else the default; [None] when the callback
    returns [null]. *)
Definition resolve (schema : value) (v : value) (name : string)
    : result (option value) :=
  if negb (lodash_has reIsDeepProp has_parsed_path v name) then
    x <- get v name ;;
    empty <- (if is_str x "" then js_in "acceptEmpty" schema else Ok false) ;;
    if empty then Ok (Some x)
    else
      has_default <- js_in "default" schema ;;
      if has_default then
        d <- get schema "default" ;;
        match d with
        | VFunc ret => Ok (Some ret)
        | _ => Ok (Some d)
        end
      else Ok None
  else
    x <- get v name ;;
    Ok (Some x).

(** One callback of [Object.getOwnPropertyNames(accept).map(...)]:
    [null], or the report of the child field. *)
Definition property_report (accept : list (string * value)) (v : value)
    (name : string) : result (option (string * report)) :=
  schema <- get (obj accept) name ;;
  val <- resolve schema v name ;;
  match val with
  | None => Ok None
  | Some x =>
      r <- validate [VStr name] x schema ;;
      Ok (Some (name, r))
  end.

(** [Promise.all(names.map(...))]. *)
Fixpoint property_reports (accept : list (string * value)) (v : value)
    (names : list string) : result (list (option (string * report))) :=
  match names with
  | [] => Ok []
  | name :: rest =>
      r <- property_report accept v name ;;
      rs <- property_reports accept v rest ;;
      Ok (r :: rs)
  end.

(** [out[name] = x]. *)
Fixpoint obj_set (out : list (string * value)) (name : string) (x : value)
    : list (string * value) :=
  match out with
  | [] => [(name, x)]
  | (k, y) :: out' =>
      if String.eqb k name then (k, x) :: out' else (k, y) :: obj_set out' name x
  end.

(** The object the [then] callbacks fill in, run in the given order. *)
Definition assemble (reports : list (option (string * report)))
    : list (string * value) :=
  fold_left
    (fun out r =>
       match r with
       | Some (name, rep) => obj_set out name (report_value rep)
       | None => out
       end)
    reports [].

(** [reports.reduce(..., [])]: the issues of the children, flattened. *)
Definition flatten_issues (reports : list (option (string * report)))
    : list value :=
  fold_left
    (fun result r =>
       match r with
       | Some (_, rep) => if hasIssues rep then result ++ issues rep else result
       | None => result
       end)
    reports [].

(** [properties(accept, value, field)]: the outcome and the field,
    whose [report.value] is the assembled object. *)
Definition properties (accept : list (string * value)) (v : value) (f : field)
    : result (value * field) :=
  if isNull f then Ok (VBool true, f)
  else if negb (isObject f) then Ok (VBool false, f)
  else
    reports <- property_reports accept v (keys_of accept) ;;
    Ok (VArr (flatten_issues reports),
        set_report_value f (obj (assemble (settle_order reports)))).

(** The [loop] of [oneOf]: the schemas it validated, in order, and
    what it settles to. *)
Fixpoint oneOf_loop (accept : list value) (v : value) (f : field)
    : list value * result value :=
  match accept with
  | [] => ([], Ok (VBool false))
  | recipe :: rest =>
      match validate (path f) v recipe with
      | Ok rep =>
          if negb (hasIssues rep) then ([recipe], Ok (VBool true))
          else let '(tried, r) := oneOf_loop rest v f in (recipe :: tried, r)
      | Throw => ([recipe], Throw)
      end
  end.

(** [oneOf(accept, value, field)]. *)
Definition oneOf (accept : list value) (v : value) (f : field)
    : list value * result value :=
  oneOf_loop accept v f.

End Composite.

(** ** Filters *)

(** [bounds.filter(accept, value, field)] on numbers: the returned value
    and the field, whose value it overwrites.  A missing bound compares
    as [NaN]. *)
Definition bounds_filter (accept : list num) (v : num) (f : field) : num * field :=
  let v' :=
    if num_ltb v (nth 0 accept NaN) then nth 0 accept NaN
    else if num_geb v (nth 1 accept NaN) then nth 1 accept NaN
    else v in
  (v', with_value f (VNum v')).

(** [default.filter(accept, value)]. *)
Definition default_filter (accept v : value) : value :=
  if String.eqb (typeof v) "undefined" then
    match accept with
    | VFunc ret => ret
    | _ => accept
    end
  else v.

(** A filter that applies a string method when [field.isString()];
    calling the method raises if [value] is not a string after all. *)
Definition string_filter (method : string -> string) (v : value) (f : field)
    : result value :=
  if isString f then
    match v with
    | VStr s => Ok (VStr (method s))
    | _ => Throw
    end
  else Ok v.

Definition trim_filter (accept v : value) (f : field) : result value :=
  string_filter trim v f.

Definition toLowerCase_filter (accept v : value) (f : field) : result value :=
  string_filter toLowerCase v f.

Definition toUpperCase_filter (accept v : value) (f : field) : result value :=
  string_filter toUpperCase v f.

Definition one_of (s : string) (l : list string) : bool :=
  existsb (String.eqb s) l.

(** [toBoolean.filter(accept, value, field)]. *)
Definition toBoolean_filter (accept v : value) (f : field) : result value :=
  if isString f then
    match v with
    | VStr s =>
        let l := toLowerCase s in
        if one_of l ["yes"; "true"; "y"; "1"] then Ok (VBool true)
        else if one_of l ["no"; "false"; "n"; "0"] then Ok (VBool false)
        else Ok v
    | _ => Throw
    end
  else Ok v.

(** [clearPhone] of [utils.js]: keeps the digits and the plus signs. *)
Definition utils_clearPhone (phone : string) : string :=
  trim (filter_string (fun c => is_digit c || Ascii.eqb c "+") phone).

(** [clearPhone.filter(accept, value, field)]: a bare [return] for a
    value that is not a string. *)
Definition clearPhone_filter (accept v : value) (f : field) : value :=
  match v with
  | VStr s => VStr (utils_clearPhone s)
  | _ => VUndefined
  end.

Definition is_some {A : Type} (o : option A) : bool :=
  match o with Some _ => true | None => false end.

(** ** More validators *)

(** [a === b] on numbers. *)
Definition num_eqb (a b : num) : bool :=
  match a, b with
  | NInf, NInf | PInf, PInf => true
  | Fin x, Fin y => Qeq_bool x y
  | _, _ => false
  end.

(** [Math.round]: the nearest integer, a tie going up. *)
Definition math_round (a : num) : num :=
  match a with
  | Fin q => Fin (inject_Z (Qfloor (q + (1 # 2))))
  | _ => a
  end.

(** The type checkers [isString], [isBool], [isNumber], [isArray] and
    [isInteger] of the rule set (the field has predicates of the same
    names). *)
Definition rule_isString (accept v : value) (f : field) : value :=
  VBool (String.eqb (typeof v) "string").

Definition rule_isBool (accept v : value) (f : field) : value :=
  VBool (String.eqb (typeof v) "boolean").

Definition rule_isNumber (accept v : value) (f : field) : value :=
  VBool (String.eqb (typeof v) "number").

Definition rule_isArray (accept v : value) (f : field) : value :=
  VBool (match v with VArr _ => true | _ => false end).

Definition rule_isInteger (accept v : value) (f : field) : value :=
  VBool (String.eqb (typeof v) "number"
         && match v with
            | VNum n => num_eqb (math_round n) n
            | _ => false
            end).

(** [minimum(accept, value, field)] and [maximum(accept, value, field)]
    on numbers. *)
Definition minimum (accept v : num) (f : field) : value := VBool (num_leb accept v).
Definition maximum (accept v : num) (f : field) : value := VBool (num_geb accept v).

(** ** The rules as the specification words them *)

(** The reading of the specification: every key is an allowed language
    or [default]. *)
Definition every_key_allowed (allowedLangs : list value) (v : value) : bool :=
  forallb (fun lang => lodash_includes (allowedLangs ++ [VStr "default"]) lang)
          (lodash_keys v).

(** The reading of the specification: every key maps to a truthy value. *)
Definition every_key_truthy (v : value) : bool :=
  forallb (fun key => match get v key with
                      | Ok x => truthy x
                      | Throw => false
                      end)
          (lodash_keys v).

(** The range test on a longitude and a latitude. *)
Definition coords_in_range (lon lat : num) : bool :=
  num_leb (num_of_Z (-180)) lon && num_leb lon (num_of_Z 180)
  && num_leb (num_of_Z (-90)) lat && num_leb lat (num_of_Z 90).


(** Two characters that are the same letter up to its case. *)
Definition same_letter (c d : ascii) : Prop :=
  c = d
  \/ (is_upper c = true /\ nat_of_ascii d = nat_of_ascii c + 32)
  \/ (is_upper d = true /\ nat_of_ascii c = nat_of_ascii d + 32).

(** Two strings that are equal up to the case of their letters. *)
Inductive eq_nocase : string -> string -> Prop :=
| eq_nocase_nil : eq_nocase "" ""
| eq_nocase_cons (c d : ascii) (s t : string) :
    same_letter c d -> eq_nocase s t -> eq_nocase (String c s) (String d t).

(** The tokens [toBoolean] recognises. *)
Definition true_tokens : list string := ["yes"; "true"; "y"; "1"].
Definition false_tokens : list string := ["no"; "false"; "n"; "0"].

(** The properties of a value, read off the value itself:
    [first_binding l k x] when [x] is what the first entry of [l] under
    the key [k] holds, and [own_property v k x] when [v] has a property
    of its own named [k] with the value [x]: an entry of an object, an
    item of an array under its index, the length of an array. *)
Inductive first_binding : list (string * value) -> string -> value -> Prop :=
| first_here (k : string) (x : value) (l : list (string * value)) :
    first_binding ((k, x) :: l) k x
| first_later (k k' : string) (x y : value) (l : list (string * value)) :
    k' <> k -> first_binding l k x -> first_binding ((k', y) :: l) k x.

Inductive own_property : value -> string -> value -> Prop :=
| own_of_object (own inherited : list (string * value)) (k : string) (x : value) :
    first_binding own k x -> own_property (VObj own inherited) k x
| own_of_array (items : list value) (i : nat) (x : value) :
    nth_error items i = Some x -> own_property (VArr items) (string_of_nat i) x
| own_length (items : list value) :
    own_property (VArr items) "length"
      (VNum (num_of_Z (Z.of_nat (List.length items)))).

Definition owns (v : value) (k : string) : Prop := exists x, own_property v k x.




(** The path syntax of lodash on names made of keys and dots, for the
    examples: such a name has path syntax when it contains a dot, and
    stands for the keys between its dots, which [hasPath] follows
    through objects and arrays. *)
Fixpoint contains_char (c : ascii) (s : string) : bool :=
  match s with
  | EmptyString => false
  | String d s' => Ascii.eqb d c || contains_char c s'
  end.

Definition deep_by_dot (name : string) : bool := contains_char "." name.

Fixpoint follows_keys (object : value) (keys : list string) : bool :=
  match keys with
  | [] => false
  | key :: rest =>
      match own_get object key with
      | Some next =>
          match rest with
          | [] => true
          | _ => follows_keys next rest
          end
      | None => false
      end
  end.

Definition has_path_by_dot (object : value) (name : string) : bool :=
  follows_keys object (split "." name).

(** Children that settle in the declared order. *)
Definition in_declared_order (rs : list (option (string * report)))
    : list (option (string * report)) := rs.

(** The child validation of the alternative [recipe] settles to a
    report without issues, or to a report with issues. *)
Definition clean (validate : list value -> value -> value -> result report)
    (f : field) (v : value) (recipe : value) : Prop :=
  exists rep, validate (path f) v recipe = Ok rep /\ issues rep = [].

Definition failing (validate : list value -> value -> value -> result report)
    (f : field) (v : value) (recipe : value) : Prop :=
  exists rep, validate (path f) v recipe = Ok rep /\ issues rep <> [].

(** What [k in schema] answers, [false] where it raises. *)
Definition declares (k : string) (schema : value) : bool :=
  match js_in k schema with
  | Ok b => b
  | Throw => false
  end.

(** What [v[name] === ''] answers, [false] where the read raises. *)
Definition reads_empty (v : value) (name : string) : bool :=
  match get v name with
  | Ok x => is_str x ""
  | Throw => false
  end.

(** The schema has a property named [k], its own or inherited. *)
Definition has_key (schema : value) (k : string) : Prop :=
  owns schema k
  \/ match schema with
     | VObj _ inherited => In k (keys_of inherited)
     | _ => False
     end.

(** The property [name] of [v] has the value [x]: an own property, or
    one that the value does not own and inherits. *)
Definition has_value (v : value) (name : string) (x : value) : Prop :=
  own_property v name x
  \/ (~ owns v name
      /\ match v with
         | VObj _ inherited => first_binding inherited name x
         | _ => False
         end).

(** The reading of the specification: the property [name] is declared
    and has a supplied value (the value owns it), or a configured
    default (its schema has the key [default]), or is marked
    [acceptEmpty] and has the empty string as value. *)
Definition resolvable (accept : list (string * value)) (v : value) (name : string)
    : Prop :=
  exists schema,
    first_binding accept name schema
    /\ (owns v name
        \/ has_key schema "default"
        \/ (has_key schema "acceptEmpty" /\ has_value v name (VStr ""))).

(** A small child validation for the examples: it reads the [type] of
    the schema and reports what the [type] rule finds. *)
Definition validate_type (p : list value) (x : value) (schema : value)
    : result report :=
  t <- get schema "type" ;;
  Ok (mkReport x
        (outcome_issues "type" t (new_field p x)
           (type (fun _ => false) t x (new_field p x)))).

(** What one callback of [properties] yields for the declared property
    [name]: [null] for one that is not resolvable, a report under that
    name for one that is. *)
Definition yields (accept : list (string * value)) (v : value) (name : string)
    (r : option (string * report)) : Prop :=
  match r with
  | None => ~ resolvable accept v name
  | Some (n, _) => n = name /\ resolvable accept v name
  end.

(** ** More rules on strings and collections *)

(** [value.length]: raises on [undefined] and [null]; [None] stands for
    the [undefined] a value without a length gives. *)
Definition length_of (v : value) : result (option num) :=
  match v with
  | VUndefined | VNull => Throw
  | VStr s => Ok (Some (num_of_Z (Z.of_nat (utf16_length s))))
  | VArr items => Ok (Some (num_of_Z (Z.of_nat (List.length items))))
  | VFunc _ => Ok (Some (num_of_Z 0))
  | _ => Ok None
  end.

(** [length(accept, value, field)]. *)
Definition rule_length (accept : num) (v : value) (f : field) : result value :=
  if negb (isString f) && negb (isArray f) then Ok (VBool false)
  else
    len <- length_of v ;;
    Ok (VBool (match len with
               | Some n => num_eqb n accept
               | None => false
               end)).

(** [value = value.trim()] when [field.isString()]. *)
Definition trimmed_if_string (v : value) (f : field) : result value :=
  if isString f then
    match v with
    | VStr s => Ok (VStr (trim s))
    | _ => Throw
    end
  else Ok v.

(** [minLength(accept, value, field)]. *)
Definition minLength (accept : num) (v : value) (f : field) : result value :=
  if negb (isString f) && negb (isArray f) then Ok (VBool false)
  else
    v' <- trimmed_if_string v f ;;
    len <- length_of v' ;;
    Ok (VBool (match len with
               | Some n => num_geb n accept
               | None => false
               end)).

(** [maxLength(accept, value, field)]. *)
Definition maxLength (accept : num) (v : value) (f : field) : result value :=
  if negb (isString f) && negb (isArray f) then Ok (VBool false)
  else
    v' <- trimmed_if_string v f ;;
    len <- length_of v' ;;
    Ok (VBool (match len with
               | Some n => num_leb n accept
               | None => false
               end)).

Definition is_alnum (c : ascii) : bool := is_lower c || is_upper c || is_digit c.

(** [clearFormField.filter(accept, value, field)]: removes every run of
    characters outside [a-zA-Z0-9]; [value.replace] raises unless the
    value is a string. *)
Definition clearFormField_filter (accept v : value) (f : field) : result value :=
  match v with
  | VStr s => Ok (VStr (filter_string is_alnum s))
  | _ => Throw
  end.

(** The characters of the class [[+.)(\][]]. *)
Definition is_regex_special (c : ascii) : bool :=
  existsb (Ascii.eqb c) ["+"; "."; ")"; "("; "]"; "["]%char.

(** [sanitizeRegex] of [utils.js]: a backslash before each of them. *)
Fixpoint sanitizeRegex (s : string) : string :=
  match s with
  | EmptyString => EmptyString
  | String c s' =>
      if is_regex_special c then String "\" (String c (sanitizeRegex s'))
      else String c (sanitizeRegex s')
  end.

(** The string is white space only. *)
Fixpoint all_space (s : string) : bool :=
  match s with
  | EmptyString => true
  | String c s' => is_space c && all_space s'
  end.

(** Every character of the string satisfies [p]. *)
Fixpoint all_chars (p : ascii -> bool) (s : string) : bool :=
  match s with
  | EmptyString => true
  | String c s' => p c && all_chars p s'
  end.

Fixpoint count_chars (p : ascii -> bool) (s : string) : nat :=
  match s with
  | EmptyString => 0
  | String c s' => (if p c then 1 else 0) + count_chars p s'
  end.

(** Undoes [sanitizeRegex]: drops a backslash that stands before a
    character of the class. *)
Fixpoint unescape (s : string) : string :=
  match s with
  | EmptyString => EmptyString
  | String c s' =>
      if Ascii.eqb c "\" && match s' with
                            | String d _ => is_regex_special d
                            | EmptyString => false
                            end
      then unescape s'
      else String c (unescape s')
  end.

(** The characters [clearPhone] keeps. *)
Definition is_phone_char (c : ascii) : bool := is_digit c || Ascii.eqb c "+".

(** ** [items] *)

Section Items.

(** The validation of a child field, as for [properties]. *)
Variable validate : list value -> value -> value -> result report.

(** The path segment of the array index [i]. *)
Definition index_segment (i : nat) : value := VNum (num_of_Z (Z.of_nat i)).

(** [Promise.all(value.map((value, i) => ... .validate()))], the items
    from index [i] on. *)
Fixpoint item_reports (accept : value) (xs : list value) (i : nat)
    : result (list report) :=
  match xs with
  | [] => Ok []
  | x :: rest =>
      r <- validate [index_segment i] x accept ;;
      rs <- item_reports accept rest (S i) ;;
      Ok (r :: rs)
  end.

(** [reports.reduce(..., [])] of [items]. *)
Definition flatten_item_issues (reports : list report) : list value :=
  fold_left
    (fun result rep => if hasIssues rep then result ++ issues rep else result)
    reports [].

(** [items(accept, value, field)]: the outcome and the field, whose
    [report.value] is the array of the children's values.  Mapping over
    a value that is not an array raises. *)
Definition items (accept : value) (v : value) (f : field)
    : result (value * field) :=
  if negb (isArray f) then Ok (VBool false, f)
  else
    match v with
    | VArr xs =>
        reports <- item_reports accept xs 0 ;;
        Ok (VArr (flatten_item_issues reports),
            set_report_value f (VArr (map report_value reports)))
    | _ => Throw
    end.

End Items.

(** The issues a callback of [properties] contributes. *)
Definition child_issues (r : option (string * report)) : list value :=
  match r with
  | Some (_, rep) => issues rep
  | None => []
  end.

(** The names under which the callbacks of [properties] report. *)
Definition report_keys (rs : list (option (string * report))) : list string :=
  flat_map (fun r => match r with
                     | Some (name, _) => [name]
                     | None => []
                     end) rs.

(** ** More filters *)

(** [toCoords.filter(accept, value, field)]; [value.split] raises
    unless the value is a string. *)
Definition toCoords_filter (accept v : value) (f : field) : result value :=
  match v with
  | VStr s => Ok (VArr (map (fun t => VNum (parseFloat t)) (split "," s)))
  | _ => Throw
  end.

(** [a || b]. *)
Definition js_or (a b : value) : value := if truthy a then a else b.

(** [langMapDefault.filter(defaultLocale, value, field)]: the object,
    with [value[defaultLocale]] assigned.  Reading [value.default]
    raises on [null]; only an object with properties of its own or
    inherited ones can have a truthy [default]. *)
Definition langMapDefault_filter (defaultLocale : string) (v : value) (f : field)
    : result value :=
  if String.eqb (typeof v) "object" then
    d <- get v "default" ;;
    if truthy d then
      current <- get v defaultLocale ;;
      match v with
      | VObj own inherited =>
          Ok (VObj (obj_set own defaultLocale (js_or current d)) inherited)
      | _ => Ok v
      end
    else Ok v
  else Ok v.

(** ** [parseInt] and [toInteger] *)

(** The value of a character as a digit of some radix up to 16. *)
Definition hex_val (c : ascii) : option Z :=
  let n := nat_of_ascii c in
  if is_digit c then Some (Z.of_nat (n - 48))
  else if (97 <=? n)%nat && (n <=? 102)%nat then Some (Z.of_nat (n - 87))
  else if (65 <=? n)%nat && (n <=? 70)%nat then Some (Z.of_nat (n - 55))
  else None.

(** Reads the digits of the radix that start [s]: the number they
    write after [acc], and how many they are. *)
Fixpoint radix_digits (radix acc : Z) (n : nat) (s : string) : Z * nat :=
  match s with
  | String c s' =>
      match hex_val c with
      | Some d =>
          if (d <? radix)%Z then radix_digits radix (radix * acc + d) (S n) s'
          else (acc, n)
      | None => (acc, n)
      end
  | EmptyString => (acc, n)
  end.

(** [parseInt(s)] without a radix: leading white space, a sign, the
    prefix [0x] or [0X] for radix 16, then the longest run of digits;
    the double nearest to the integer they write, [NaN] when there is
    no digit. *)
Definition parseInt (s : string) : num :=
  let s1 := skip_white_space s in
  let '(neg, s2) :=
    match s1 with
    | String "-" t => (true, t)
    | String "+" t => (false, t)
    | _ => (false, s1)
    end in
  let '(radix, s3) :=
    match s2 with
    | String "0" (String "x" t) => (16%Z, t)
    | String "0" (String "X" t) => (16%Z, t)
    | _ => (10%Z, s2)
    end in
  let '(m, n) := radix_digits radix 0 0 s3 in
  if (n =? 0)%nat then NaN else round_to_double (inject_Z (if neg then - m else m)).


Section Coercion.

(** The conversion to a string that [parseInt] and [RegExp.test] apply
    to an argument that is not a string. *)
Variable ToString : value -> string.

Definition string_of (v : value) : string :=
  match v with
  | VStr s => s
  | _ => ToString v
  end.

(** [toInteger.filter(accept, value, field)]. *)
Definition toInteger_filter (accept v : value) (f : field) : value :=
  if negb (isNumber f) then js_or (VNum (parseInt (string_of v))) (VNum (num_of_Z 0))
  else v.

End Coercion.

(** ** [toArray] *)

(** Scans [s] for the separator: [skip] characters of a separator just
    found are still to be passed over, [cur] is the piece being read. *)
Fixpoint split_go (sep s : string) (skip : nat) (cur : string) : list string :=
  match s with
  | EmptyString => [cur]
  | String c s' =>
      match skip with
      | S k => split_go sep s' k cur
      | O =>
          if prefix sep s then cur :: split_go sep s' (String.length sep - 1) ""
          else split_go sep s' 0 (cur ++ String c "")
      end
  end.

(** A code point from U+0800 to U+FFFF in its three bytes. *)
Definition three_bytes (u : N) : string :=
  String (ascii_of_N (224 + u / 4096))
    (String (ascii_of_N (128 + (u / 64) mod 64))
       (String (ascii_of_N (128 + u mod 64)) "")).

(** The two surrogates of the character that the bytes [c1 c2 c3 c4]
    encode, each written as the code point it is. *)
Definition surrogates (c1 c2 c3 c4 : ascii) : list string :=
  let cp := (N_of_ascii c1 mod 8 * 262144 + N_of_ascii c2 mod 64 * 4096
             + N_of_ascii c3 mod 64 * 64 + N_of_ascii c4 mod 64)%N in
  let u := (cp - 65536)%N in
  [three_bytes (55296 + u / 1024); three_bytes (56320 + u mod 1024)].

(** The code units of the character that starts with the byte [c] and
    continues with the bytes [k]. *)
Definition units_of_char (c : ascii) (k : string) : list string :=
  if (nat_of_ascii c <? 240)%nat then [String c k]
  else
    match k with
    | String c2 (String c3 (String c4 EmptyString)) => surrogates c c2 c3 c4
    | _ => [String c k; EmptyString]
    end.

(** The bytes that continue a character at the start of [s], and the
    code units of what follows them. *)
Fixpoint units_go (s : string) : string * list string :=
  match s with
  | EmptyString => (EmptyString, [])
  | String c s' =>
      let (k, us) := units_go s' in
      if ((128 <=? nat_of_ascii c) && (nat_of_ascii c <? 192))%nat
      then (String c k, us)
      else (EmptyString, units_of_char c k ++ us)
  end.

(** The UTF-16 code units of a string, one string each. *)
Definition code_units (s : string) : list string := snd (units_go s).

(** [s.split(sep)] for a string separator: the pieces between the
    occurrences of [sep], found from left to right; the code units of
    [s] when [sep] is empty. *)
Definition split_on (sep s : string) : list string :=
  match sep with
  | EmptyString => code_units s
  | _ => split_go sep s 0 ""
  end.

(** The parameter of [toArray]: a regular expression, given by what
    [String.prototype.split] returns for it on each string, or a value
    that is no regular expression. *)
Inductive separator : Type :=
| SepRegExp (split_by : string -> list value)
| SepValue (accept : value).

(** [toArray.filter(accept, value, field)]: the returned value and the
    field, whose value it overwrites. *)
Definition toArray_filter (accept : separator) (v : value) (f : field)
    : result (value * field) :=
  v' <- (if isString f then
           match v with
           | VStr s =>
               Ok (VArr (match accept with
                         | SepRegExp split_by => split_by s
                         | SepValue (VStr sep) => map VStr (split_on sep s)
                         | SepValue _ => map VStr (split "," s)
                         end))
           | _ => Throw
           end
         else Ok v) ;;
  Ok (v', with_value f v').


(** ** Rules that test a regular expression *)

(** A string matches a sequence of character classes, one character
    each, from its first character to its last. *)
Fixpoint match_chars (ps : list (ascii -> bool)) (s : string) : bool :=
  match ps, s with
  | [], EmptyString => true
  | p :: ps', String c s' => p c && match_chars ps' s'
  | _, _ => false
  end.

(** The sequence matches at the start of the string. *)
Fixpoint match_prefix (ps : list (ascii -> bool)) (s : string) : bool :=
  match ps with
  | [] => true
  | p :: ps' =>
      match s with
      | String c s' => p c && match_prefix ps' s'
      | EmptyString => false
      end
  end.

(** The sequence matches somewhere in the string. *)
Fixpoint search (ps : list (ascii -> bool)) (s : string) : bool :=
  match_prefix ps s
  || match s with
     | String _ s' => search ps s'
     | EmptyString => false
     end.

Definition is_char (x c : ascii) : bool := Ascii.eqb c x.

Definition in_range (lo hi c : ascii) : bool :=
  (nat_of_ascii lo <=? nat_of_ascii c)%nat && (nat_of_ascii c <=? nat_of_ascii hi)%nat.

(** [[0-9a-f]] under the flag [i]. *)
Definition is_hex (c : ascii) : bool :=
  is_digit c || in_range "a" "f" c || in_range "A" "F" c.

(** [uuidRegex]: groups of 8, 4, 4, 4 and 12 hexadecimal digits with
    hyphens between them, anchored at both ends. *)
Definition uuid_pattern : list (ascii -> bool) :=
  repeat is_hex 8 ++ [is_char "-"] ++ repeat is_hex 4 ++ [is_char "-"]
  ++ repeat is_hex 4 ++ [is_char "-"] ++ repeat is_hex 4 ++ [is_char "-"]
  ++ repeat is_hex 12.

Definition uuidRegex_test (s : string) : bool := match_chars uuid_pattern s.

(** [shortTimeRegex]: [[0-2][0-9]:[0-5][0-9]], not anchored. *)
Definition shortTime_pattern : list (ascii -> bool) :=
  [in_range "0" "2"; is_digit; is_char ":"; in_range "0" "5"; is_digit].

Definition shortTimeRegex_test (s : string) : bool := search shortTime_pattern s.

(** The classes of [emailRegex], under the flag [i]. *)
Definition is_local_char (c : ascii) : bool :=
  is_alnum c || existsb (Ascii.eqb c) ["."; "_"; "+"; "-"]%char.

Definition is_host_char (c : ascii) : bool := is_alnum c || Ascii.eqb c "-".

(** [(\d{1,3}\.){3}\d{1,3}]: four groups of one to three digits. *)
Definition ipv4_like (domain : string) : bool :=
  match split "." domain with
  | [a; b; c; d] =>
      forallb (fun l => (1 <=? String.length l)%nat && (String.length l <=? 3)%nat
                        && all_chars is_digit l) [a; b; c; d]
  | _ => false
  end.

(** [[a-z0-9-]{2,}(\.[a-z0-9]{2,})*]: a first label of two or more
    letters, digits or hyphens, then labels of two or more letters or
    digits. *)
Definition host_like (domain : string) : bool :=
  match split "." domain with
  | first :: more =>
      (2 <=? String.length first)%nat && all_chars is_host_char first
      && forallb (fun l => (2 <=? String.length l)%nat && all_chars is_alnum l) more
  | [] => false
  end.

(** [emailRegex], anchored at both ends: a local part of one or more
    characters of its class, an at sign, and a domain of one of the two
    forms.  No class contains the at sign and none of the domain
    contains the dot, so the parts are the pieces between them. *)
Definition emailRegex_test (s : string) : bool :=
  match split "@" s with
  | [local; domain] =>
      (1 <=? String.length local)%nat && all_chars is_local_char local
      && (ipv4_like domain || host_like domain)
  | _ => false
  end.

(** [b === accept] for a boolean [b]. *)
Definition is_bool_value (accept : value) (b : bool) : bool :=
  match accept with
  | VBool b' => Bool.eqb b' b
  | _ => false
  end.

Section RegexRules.

(** The conversion to a string that [RegExp.test] applies to an
    argument that is not a string. *)
Variable ToString : value -> string.

(** [validatePhone] of [utils.js], which asks [awesome-phonenumber]. *)
Variable validatePhone : value -> bool.

(** [regexp(accept, value, field)] and [pattern(accept, value, field)],
    for a regular expression without state, given by its [test]. *)
Definition regexp (test : string -> bool) (v : value) (f : field) : value :=
  if negb (isString f) then VBool true
  else VBool (test (string_of ToString v)).

Definition pattern (test : string -> bool) (v : value) (f : field) : value :=
  if isString f then VBool (test (string_of ToString v))
  else VUndefined.

(** [email(accept, value, field)]. *)
Definition email (accept v : value) (f : field) : value :=
  VBool (is_bool_value accept (emailRegex_test (string_of ToString v))).

(** [emailOrPhone(accept, value, field)]. *)
Definition emailOrPhone (accept v : value) (f : field) : value :=
  VBool (emailRegex_test (string_of ToString v) || validatePhone v).

(** [uuid(accept, value, field)]. *)
Definition uuid (accept v : value) (f : field) : value :=
  if negb (truthy v) || negb (String.eqb (typeof v) "string") then VBool true
  else VBool (is_bool_value accept (uuidRegex_test (string_of ToString v))).

(** [shortTime(accept, value, field)]. *)
Definition shortTime (accept v : value) (f : field) : value :=
  VBool (is_bool_value accept (shortTimeRegex_test (string_of ToString v))).

End RegexRules.

Definition not_space (c : ascii) : bool := negb (is_space c).

(** ** [modulo] *)

(** The integer part of a quotient, rounded toward zero. *)
Definition Qtrunc (q : Q) : Z := if Qle_bool 0 q then Qfloor q else Qceiling q.

(** [a % b] on numbers: [NaN] for an infinite or [NaN] dividend and for
    a zero or [NaN] divisor, the dividend itself for an infinite
    divisor, else the remainder of the division truncated toward zero
    (which is exact on doubles). *)
Definition num_rem (a b : num) : num :=
  match a, b with
  | Fin x, Fin y =>
      if Qeq_bool y 0 then NaN else Fin (x - y * inject_Z (Qtrunc (x / y)))
  | Fin x, (PInf | NInf) => Fin x
  | _, _ => NaN
  end.

(** [modulo(accept, value, field)] on numbers. *)
Definition modulo (accept v : num) (f : field) : value :=
  VBool (num_eqb (num_rem v accept) (num_of_Z 0)).

(** * Properties of the rules *)

(** ** Helper lemmas *)

Lemma is_str_true (x : value) (s : string) : is_str x s = true <-> x = VStr s.
Proof.
  destruct x; simpl; try (split; [discriminate | intros H; discriminate H]).
  rewrite String.eqb_eq. split; [now intros -> | now intros [= ->]].
Qed.

Lemma lodash_includes_In (l : list value) (lang : string) :
  lodash_includes l lang = true <-> In (VStr lang) l.
Proof.
  unfold lodash_includes. rewrite existsb_exists. split.
  - intros (x & Hx & Hs). apply is_str_true in Hs. now subst.
  - intros H. exists (VStr lang). split; [assumption | now apply is_str_true].
Qed.

(** ** [type] *)

(** C9: for every accepted type parameter, the [type] validator passes
    when the value is [undefined]: it returns [true], which adds no
    issue, whatever the declared type and whatever the field holds. *)
Theorem type_undefined_passes :
  forall (ObjectId_isValid : value -> bool) (accept : value) (f : field),
    type ObjectId_isValid accept VUndefined f = VBool true
    /\ outcome_issues "type" accept f (type ObjectId_isValid accept VUndefined f) = [].
Proof.
  intros isValid accept f. unfold type. simpl. split; reflexivity.
Qed.

(** A value that is present does get checked: the guard on [undefined]
    is the only reason the rule above passes. *)
Example type_number_is_not_string :
  outcome_issues "type" (VStr "string") (new_field [] (VNum (num_of_Z 1)))
    (type (fun _ => false) (VStr "string") (VNum (num_of_Z 1))
       (new_field [] (VNum (num_of_Z 1))))
  = [obj [("value", VNum (num_of_Z 1)); ("accept", VStr "string");
          ("current", VStr "number")]].
Proof. reflexivity. Qed.

(** ** [clearPhone] *)

Lemma string_filter_keeps_non_strings (method : string -> string) (v : value) (f : field) :
  String.eqb (typeof v) "string" = false ->
  string_filter method v (with_value f v) = Ok v.
Proof.
  intros H. unfold string_filter, isString. simpl. now rewrite H.
Qed.

(** C1: the [clearPhone] filter applied to the number [42] returns
    [undefined], while the string filters next to it ([trim],
    [toLowerCase], [toUpperCase], [toBoolean]) and [default] hand the
    same value back unchanged. *)
Theorem clearPhone_non_string_is_undefined :
  forall (accept : value) (f : field),
    let v := VNum (num_of_Z 42) in
    clearPhone_filter accept v (with_value f v) = VUndefined
    /\ trim_filter accept v (with_value f v) = Ok v
    /\ toLowerCase_filter accept v (with_value f v) = Ok v
    /\ toUpperCase_filter accept v (with_value f v) = Ok v
    /\ toBoolean_filter accept v (with_value f v) = Ok v
    /\ default_filter accept v = v.
Proof.
  intros accept f v. repeat split.
Qed.

(** On a string the filter does return a string. *)
Example clearPhone_string :
  clearPhone_filter (VBool true) (VStr "+7 (912) 000-11-22")
    (new_field [] (VStr "+7 (912) 000-11-22"))
  = VStr "+79120001122".
Proof. reflexivity. Qed.

(** ** [langMap] *)

(** C5, counterexample: with [en] the only allowed language, the map
    [{en: "hello", xx: "salut"}] passes although its key [xx] is not
    allowed. *)
Lemma langMap_passes_with_foreign_key :
  let v := obj [("en", VStr "hello"); ("xx", VStr "salut")] in
  langMap [VStr "en"] v (new_field [] v) = VBool true
  /\ every_key_allowed [VStr "en"] v = false.
Proof. split; reflexivity. Qed.

(** C5, amended: for an object value [langMap] passes exactly when at
    least one of its keys is an allowed language or [default] (and
    fails otherwise); a value that is not an object passes. *)
Theorem langMap_passes_iff_some_key_allowed :
  forall (allowedLangs : list value) (v : value) (f : field),
    (lodash_isObject v = true ->
       (langMap allowedLangs v f = VBool true <->
          exists lang, In lang (lodash_keys v)
                       /\ (In (VStr lang) allowedLangs \/ lang = "default"))
       /\ (langMap allowedLangs v f <> VBool true ->
           langMap allowedLangs v f = VBool false))
    /\ (lodash_isObject v = false -> langMap allowedLangs v f = VBool true).
Proof.
  intros allowed v f. unfold langMap. split; intros Hobj; rewrite Hobj; simpl.
  - split.
    + split.
      * intros [= H]. apply existsb_exists in H. destruct H as (lang & Hin & Hinc).
        exists lang. split; [assumption |].
        apply lodash_includes_In, in_app_or in Hinc.
        destruct Hinc as [H | [[= H] | []]]; [now left | now right].
      * intros (lang & Hin & Hallowed). f_equal. apply existsb_exists.
        exists lang. split; [assumption |].
        apply lodash_includes_In, in_or_app.
        destruct Hallowed as [H | ->]; [now left | right; now left].
    + destruct (existsb _ _); [intros H; now elim H | reflexivity].
  - reflexivity.
Qed.

Lemma langMap_passes_iff_some_key_allowed_witness :
  let v := obj [("en", VStr "hello"); ("xx", VStr "salut")] in
  (langMap [VStr "en"] v (new_field [] v) = VBool true <->
     exists lang, In lang (lodash_keys v)
                  /\ (In (VStr lang) [VStr "en"] \/ lang = "default"))
  /\ langMap [VStr "en"] (VStr "en") (new_field [] (VStr "en")) = VBool true.
Proof.
  intros v. split.
  - apply (langMap_passes_iff_some_key_allowed [VStr "en"] v (new_field [] v)).
    reflexivity.
  - apply (langMap_passes_iff_some_key_allowed [VStr "en"] (VStr "en")).
    reflexivity.
Defined.

(** An object without keys fails, although all of its keys are allowed. *)
Example langMap_empty_object_fails :
  langMap [VStr "en"] (obj []) (new_field [] (obj [])) = VBool false
  /\ every_key_allowed [VStr "en"] (obj []) = true.
Proof. split; reflexivity. Qed.

(** ** [langMapRequired] *)

(** An object without keys makes the reduction raise. *)
Lemma langMapRequired_no_keys_throws (allowedLangs : list value) (v : value) (f : field) :
  lodash_isObject v = true ->
  lodash_keys v = [] ->
  langMapRequired allowedLangs v f = Throw.
Proof.
  intros Hobj Hkeys. unfold langMapRequired. now rewrite Hobj, Hkeys.
Qed.

Example langMapRequired_empty_object :
  langMapRequired [VStr "en"] (obj []) (new_field [] (obj [])) = Throw
  /\ langMapRequired [VStr "en"] (VArr []) (new_field [] (VArr [])) = Throw.
Proof. split; reflexivity. Qed.

(** A value that is not an object is left alone. *)
Lemma langMapRequired_abstains (allowedLangs : list value) (v : value) (f : field) :
  lodash_isObject v = false ->
  langMapRequired allowedLangs v f = Ok (VBool true).
Proof.
  intros Hobj. unfold langMapRequired. now rewrite Hobj.
Qed.

(** With a single key the rule returns the key itself, whatever the
    key maps to. *)
Lemma langMapRequired_single_key (allowedLangs : list value) (key : string) (x : value)
    (inherited : list (string * value)) (f : field) :
  langMapRequired allowedLangs (VObj [(key, x)] inherited) f = Ok (VStr key).
Proof. reflexivity. Qed.

(** C10: on the map [{en: "", ru: "x"}] the rule returns [true]
    although [en] maps to the empty string, which is not truthy: the
    first key seeds the reduction and its value is never read. *)
Theorem langMapRequired_skips_first_key :
  let v := obj [("en", VStr ""); ("ru", VStr "x")] in
  langMapRequired [VStr "en"; VStr "ru"] v (new_field [] v) = Ok (VBool true)
  /\ every_key_truthy v = false.
Proof. split; reflexivity. Qed.

(** ** [bounds] *)

Lemma Qle_bool_false_lt (x y : Q) : Qle_bool x y = false -> (y < x)%Q.
Proof.
  intros H. apply Qnot_le_lt. intros Hle. apply Qle_bool_iff in Hle. congruence.
Qed.

Ltac q_bools :=
  repeat match goal with
  | H : Qle_bool _ _ = true |- _ => apply Qle_bool_iff in H
  | H : Qle_bool _ _ = false |- _ => apply Qle_bool_false_lt in H
  | |- context [Qle_bool ?a ?b] => destruct (Qle_bool a b) eqn:?
  | H : context [Qle_bool ?a ?b] |- _ => destruct (Qle_bool a b) eqn:?
  end.

Ltac q_close :=
  simpl in *; q_bools; simpl in *;
  solve [ reflexivity | discriminate | assumption | exfalso; lra
        | apply Qle_bool_iff; lra ].

(** C6, counterexample: with the bounds [[0, 10]] the value [10] is
    returned as [10], which is not strictly less than the upper bound. *)
Lemma bounds_returns_upper_bound :
  let r := fst (bounds_filter [num_of_Z 0; num_of_Z 10] (num_of_Z 10)
                  (new_field [] (VNum (num_of_Z 10)))) in
  r = num_of_Z 10 /\ num_ltb r (num_of_Z 10) = false.
Proof. split; reflexivity. Qed.

(** C6, amended: for bounds [min <= max] and a value that is a number
    proper, the filter clamps into the closed interval: what it returns
    is at least [min] and at most [max]; it is [min] for a value below
    [min], [max] for a value at or above [max], and the value itself in
    between; and the field holds what is returned. *)
Theorem bounds_clamps_closed :
  forall (lo hi v : num) (f : field),
    is_nan v = false ->
    num_leb lo hi = true ->
    let r := fst (bounds_filter [lo; hi] v f) in
    num_leb lo r = true
    /\ num_leb r hi = true
    /\ (num_ltb v lo = true -> r = lo)
    /\ (num_geb v hi = true -> r = hi)
    /\ (num_ltb v lo = false -> num_geb v hi = false -> r = v)
    /\ fvalue (snd (bounds_filter [lo; hi] v f)) = VNum r.
Proof.
  intros lo hi v f Hnan Hle r. subst r. unfold bounds_filter, num_geb. simpl nth.
  destruct lo as [| |lo|], hi as [| |hi|], v as [| |v|]; try discriminate;
    repeat split; try intros ?; try intros ?; q_close.
Qed.

Lemma bounds_clamps_closed_witness :
  let r := fst (bounds_filter [num_of_Z 0; num_of_Z 10] (num_of_Z 12)
                  (new_field [] (VNum (num_of_Z 12)))) in
  num_leb (num_of_Z 0) r = true /\ num_leb r (num_of_Z 10) = true.
Proof.
  intros r.
  destruct (bounds_clamps_closed (num_of_Z 0) (num_of_Z 10) (num_of_Z 12)
              (new_field [] (VNum (num_of_Z 12))) eq_refl eq_refl)
    as (Hlo & Hhi & _).
  split; [exact Hlo | exact Hhi].
Defined.

(** The two side conditions are needed: [NaN] goes through unchanged,
    and bounds in the wrong order send a value above the upper one. *)
Example bounds_nan_unchanged :
  fst (bounds_filter [num_of_Z 0; num_of_Z 10] NaN (new_field [] (VNum NaN))) = NaN.
Proof. reflexivity. Qed.

Example bounds_reversed :
  fst (bounds_filter [num_of_Z 10; num_of_Z 0] (num_of_Z 5)
         (new_field [] (VNum (num_of_Z 5)))) = num_of_Z 10.
Proof. reflexivity. Qed.

(** ** [isCoordsString] *)

Section FilterTwo.

Context {A : Type} (p : A -> bool).




End FilterTwo.

Lemma coords_test (coords : list num) :
  ((List.length coords =? 2)%nat
   && num_leb (nth 1 coords NaN) (num_of_Z 90)
   && num_geb (nth 1 coords NaN) (num_of_Z (-90))
   && num_leb (nth 0 coords NaN) (num_of_Z 180)
   && num_geb (nth 0 coords NaN) (num_of_Z (-180))) = true
  <-> exists lon lat, coords = [lon; lat] /\ coords_in_range lon lat = true.
Proof.
  unfold coords_in_range, num_geb. split.
  - destruct coords as [| lon [| lat [| ? ?]]]; simpl; try discriminate.
    intros H. exists lon, lat. split; [reflexivity |].
    repeat (apply andb_true_iff in H; destruct H as [H ?]).
    repeat (apply andb_true_iff; split); assumption.
  - intros (lon & lat & -> & H). simpl.
    repeat (apply andb_true_iff in H; destruct H as [H ?]).
    repeat (apply andb_true_iff; split); assumption.
Qed.




(** A token is rounded to the nearest double before it is compared. *)
Example isCoordsString_rounds :
  isCoordsString (VBool true) (VStr "180.00000000000000001,0") (new_field [] VNull)
  = Ok (VBool true)
  /\ parseFloat "180.00000000000000001" = num_of_Z 180.
Proof. split; reflexivity. Qed.

Example isCoordsString_samples :
  isCoordsString (VBool true) (VStr "30.5,-89") (new_field [] VNull) = Ok (VBool true)
  /\ isCoordsString (VBool true) (VStr "181,2") (new_field [] VNull) = Ok (VBool false)
  /\ isCoordsString (VBool true) (VStr "1,2,3") (new_field [] VNull) = Ok (VBool false)
  /\ isCoordsString (VBool true) (VStr "1,abc") (new_field [] VNull) = Ok (VBool false)
  /\ isCoordsString (VBool true) (VNum (num_of_Z 1)) (new_field [] VNull) = Throw.
Proof. repeat split. Qed.

(** ** [toBoolean] *)

Lemma is_upper_bounds (c : ascii) :
  is_upper c = true <-> 65 <= nat_of_ascii c <= 90.
Proof.
  unfold is_upper. rewrite andb_true_iff, !Nat.leb_le. tauto.
Qed.

Lemma lower_char_upper (c : ascii) :
  is_upper c = true ->
  lower_char c = ascii_of_nat (nat_of_ascii c + 32)
  /\ is_upper (lower_char c) = false.
Proof.
  intros Hc. unfold lower_char. rewrite Hc. split; [reflexivity |].
  apply is_upper_bounds in Hc.
  apply not_true_is_false. rewrite is_upper_bounds.
  rewrite nat_ascii_embedding by lia. lia.
Qed.

Lemma same_letter_lower (c d : ascii) :
  same_letter c d -> lower_char c = lower_char d.
Proof.
  assert (Hmain : forall a b, is_upper a = true ->
                    nat_of_ascii b = nat_of_ascii a + 32 ->
                    lower_char a = lower_char b).
  { intros a b Ha Hb. destruct (lower_char_upper a Ha) as [Hl Hu].
    assert (Hab : b = lower_char a).
    { rewrite Hl, <- Hb. symmetry. apply ascii_nat_embedding. }
    subst b. symmetry. generalize Hu. generalize (lower_char a). intros x Hx.
    unfold lower_char. now rewrite Hx. }
  intros [-> | [[Hc Hd] | [Hd Hc]]].
  - reflexivity.
  - now apply Hmain.
  - symmetry. now apply Hmain.
Qed.

Lemma same_letter_lower_char (c : ascii) : same_letter c (lower_char c).
Proof.
  destruct (is_upper c) eqn:Hc.
  - right; left. split; [assumption |].
    pose proof (lower_char_upper c Hc) as [Hl _]. rewrite Hl.
    apply is_upper_bounds in Hc. apply nat_ascii_embedding. lia.
  - left. unfold lower_char. now rewrite Hc.
Qed.

Lemma eq_nocase_toLowerCase (s t : string) :
  eq_nocase s t -> toLowerCase s = toLowerCase t.
Proof.
  induction 1 as [| c d s t Hcd _ IH]; [reflexivity |].
  change (String (lower_char c) (toLowerCase s)
          = String (lower_char d) (toLowerCase t)).
  now rewrite (same_letter_lower c d Hcd), IH.
Qed.

Lemma eq_nocase_lowered (s : string) : eq_nocase s (toLowerCase s).
Proof.
  induction s as [| c s IH]; [constructor |].
  change (eq_nocase (String c s) (String (lower_char c) (toLowerCase s))).
  constructor; [apply same_letter_lower_char | assumption].
Qed.

Lemma one_of_In (s : string) (l : list string) : one_of s l = true <-> In s l.
Proof.
  unfold one_of. rewrite existsb_exists. split.
  - intros (t & Ht & Heq). apply String.eqb_eq in Heq. now subst.
  - intros H. exists s. split; [assumption | apply String.eqb_refl].
Qed.

Lemma toBoolean_on_string (accept : value) (f : field) (s : string) :
  toBoolean_filter accept (VStr s) (with_value f (VStr s))
  = if one_of (toLowerCase s) true_tokens then Ok (VBool true)
    else if one_of (toLowerCase s) false_tokens then Ok (VBool false)
    else Ok (VStr s).
Proof. reflexivity. Qed.

(** C8: [toBoolean] maps a string that is [yes], [true], [y] or [1] up
    to letter case to [true], one that is [no], [false], [n] or [0] up
    to letter case to [false], and returns any other string unchanged;
    it returns a boolean unchanged, and applying it to its own result
    changes nothing. *)
Theorem toBoolean_tokens_and_idempotent :
  forall (accept : value) (f : field),
    (forall s t, In t true_tokens -> eq_nocase s t ->
       toBoolean_filter accept (VStr s) (with_value f (VStr s)) = Ok (VBool true))
    /\ (forall s t, In t false_tokens -> eq_nocase s t ->
          toBoolean_filter accept (VStr s) (with_value f (VStr s)) = Ok (VBool false))
    /\ (forall s, (forall t, In t (true_tokens ++ false_tokens) -> ~ eq_nocase s t) ->
          toBoolean_filter accept (VStr s) (with_value f (VStr s)) = Ok (VStr s))
    /\ (forall b : bool,
          toBoolean_filter accept (VBool b) (with_value f (VBool b)) = Ok (VBool b))
    /\ (forall v r,
          toBoolean_filter accept v (with_value f v) = Ok r ->
          toBoolean_filter accept r (with_value f r) = Ok r).
Proof.
  intros accept f.
  assert (Hlow : forall t, In t (true_tokens ++ false_tokens) -> toLowerCase t = t).
  { intros t Ht. simpl in Ht.
    repeat (destruct Ht as [<- | Ht]; [reflexivity |]). destruct Ht. }
  assert (Hnone : forall s,
             (forall t, In t (true_tokens ++ false_tokens) -> ~ eq_nocase s t) ->
             one_of (toLowerCase s) true_tokens = false
             /\ one_of (toLowerCase s) false_tokens = false).
  { intros s Hs. split; apply not_true_is_false; intros H; apply one_of_In in H;
      apply (Hs (toLowerCase s));
      solve [ apply eq_nocase_lowered
            | apply in_or_app; (now left) || (now right) ]. }
  split; [| split; [| split; [| split]]].
  - intros s t Ht Hst. rewrite toBoolean_on_string.
    apply eq_nocase_toLowerCase in Hst.
    rewrite (Hlow t) in Hst by (apply in_or_app; now left).
    apply one_of_In in Ht. now rewrite Hst, Ht.
  - intros s t Ht Hst. rewrite toBoolean_on_string.
    apply eq_nocase_toLowerCase in Hst.
    rewrite (Hlow t) in Hst by (apply in_or_app; now right).
    rewrite Hst.
    assert (Hf : one_of t true_tokens = false).
    { simpl in Ht. repeat (destruct Ht as [<- | Ht]; [reflexivity |]). destruct Ht. }
    apply one_of_In in Ht. now rewrite Hf, Ht.
  - intros s Hs. rewrite toBoolean_on_string.
    destruct (Hnone s Hs) as [-> ->]. reflexivity.
  - intros b. reflexivity.
  - intros v r. destruct v; try (intros [= <-]; reflexivity).
    rewrite toBoolean_on_string.
    destruct (one_of (toLowerCase s) true_tokens) eqn:Ht;
      [intros [= <-]; reflexivity |].
    destruct (one_of (toLowerCase s) false_tokens) eqn:Hf;
      intros [= <-]; [reflexivity |].
    rewrite toBoolean_on_string. now rewrite Ht, Hf.
Qed.

Lemma eq_nocase_YeS : eq_nocase "YeS" "yes".
Proof.
  apply eq_nocase_cons; [right; left; split; reflexivity |].
  apply eq_nocase_cons; [left; reflexivity |].
  apply eq_nocase_cons; [right; left; split; reflexivity | apply eq_nocase_nil].
Defined.

Lemma eq_nocase_No : eq_nocase "No" "no".
Proof.
  apply eq_nocase_cons; [right; left; split; reflexivity |].
  apply eq_nocase_cons; [left; reflexivity | apply eq_nocase_nil].
Defined.

Lemma maybe_is_no_token :
  forall t, In t (true_tokens ++ false_tokens) -> ~ eq_nocase "maybe" t.
Proof.
  intros t Ht H. simpl in Ht.
  repeat (destruct Ht as [<- | Ht];
          [inversion H as [| ? ? ? ? Hletter Hrest]; subst;
           destruct Hletter as [Hl | [[Hl _] | [Hl _]]]; discriminate Hl |]).
  destruct Ht.
Defined.

Lemma toBoolean_tokens_and_idempotent_witness :
  toBoolean_filter (VBool true) (VStr "YeS") (new_field [] (VStr "YeS")) = Ok (VBool true)
  /\ toBoolean_filter (VBool true) (VStr "No") (new_field [] (VStr "No")) = Ok (VBool false)
  /\ toBoolean_filter (VBool true) (VStr "maybe") (new_field [] (VStr "maybe"))
     = Ok (VStr "maybe")
  /\ toBoolean_filter (VBool true) (VBool true) (new_field [] (VBool true)) = Ok (VBool true).
Proof.
  destruct (toBoolean_tokens_and_idempotent (VBool true) (new_field [] VUndefined))
    as (Htrue & Hfalse & Hother & Hbool & Hidem).
  split; [| split; [| split]].
  - apply (Htrue "YeS" "yes"); [simpl; now left | exact eq_nocase_YeS].
  - apply (Hfalse "No" "no"); [simpl; now left | exact eq_nocase_No].
  - apply (Hother "maybe"). exact maybe_is_no_token.
  - apply (Hidem (VStr "YeS") (VBool true)).
    apply (Htrue "YeS" "yes"); [simpl; now left | exact eq_nocase_YeS].
Defined.

Example toBoolean_samples :
  toBoolean_filter VUndefined (VStr "TRUE") (new_field [] (VStr "TRUE")) = Ok (VBool true)
  /\ toBoolean_filter VUndefined (VStr "N") (new_field [] (VStr "N")) = Ok (VBool false)
  /\ toBoolean_filter VUndefined (VStr "0") (new_field [] (VStr "0")) = Ok (VBool false)
  /\ toBoolean_filter VUndefined (VStr "maybe") (new_field [] (VStr "maybe"))
     = Ok (VStr "maybe")
  /\ toBoolean_filter VUndefined (VStr " yes") (new_field [] (VStr " yes"))
     = Ok (VStr " yes").
Proof. repeat split. Qed.

(** ** [required] *)

Lemma get_own (v : value) (k : string) (x : value) :
  own_get v k = Some x -> get v k = Ok x.
Proof.
  destruct v; simpl; try discriminate.
  - intros H. unfold own_get. now rewrite H.
  - now intros ->.
Qed.

Lemma assoc_first_binding (l : list (string * value)) (k : string) (x : value) :
  assoc k l = Some x <-> first_binding l k x.
Proof.
  induction l as [| [k' y] l IH]; simpl.
  - split; [discriminate | inversion 1].
  - destruct (String.eqb k' k) eqn:Hk.
    + apply String.eqb_eq in Hk. subst k'. split.
      * intros [= ->]. constructor.
      * inversion 1; subst; [reflexivity | congruence].
    + apply String.eqb_neq in Hk. rewrite IH. split.
      * intros H. now constructor.
      * inversion 1; subst; [congruence | assumption].
Qed.

Lemma to_uint_not_Nil (n : nat) : Nat.to_uint n <> Decimal.Nil.
Proof.
  intros H.
  assert (Hn : n = 0%nat) by (now rewrite <- (DecimalNat.Unsigned.of_to n), H).
  subst n. discriminate H.
Qed.

Lemma uint_of_string_of_nat (n : nat) :
  NilZero.uint_of_string (string_of_nat n) = Some (Nat.to_uint n).
Proof. apply NilZero.usu, to_uint_not_Nil. Qed.

Lemma index_of_key_spec (k : string) (i : nat) :
  index_of_key k = Some i <-> k = string_of_nat i.
Proof.
  unfold index_of_key. split.
  - destruct (NilZero.uint_of_string k) as [u |]; [| discriminate].
    destruct (String.eqb (string_of_nat (Nat.of_uint u)) k) eqn:Hk; [| discriminate].
    apply String.eqb_eq in Hk. intros [= <-]. now symmetry.
  - intros ->. rewrite uint_of_string_of_nat, DecimalNat.Unsigned.of_to.
    now rewrite String.eqb_refl.
Qed.

Lemma string_of_nat_not_length (i : nat) : String.eqb (string_of_nat i) "length" = false.
Proof.
  apply String.eqb_neq. intros H.
  pose proof (uint_of_string_of_nat i) as Hu. rewrite H in Hu. discriminate.
Qed.

(** The own properties the accessors compute are the own properties of
    the value. *)
Lemma own_get_spec (v : value) (k : string) (x : value) :
  own_get v k = Some x <-> own_property v k x.
Proof.
  split.
  - destruct v as [| | | | | xs | own inherited | |]; simpl; try discriminate.
    + destruct (String.eqb k "length") eqn:Hk.
      * apply String.eqb_eq in Hk. subst k. intros [= <-]. constructor.
      * destruct (index_of_key k) as [i |] eqn:Hi; [| discriminate].
        apply index_of_key_spec in Hi. subst k. intros H. now constructor.
    + intros H. constructor. now apply assoc_first_binding.
  - intros H. destruct H as [own inherited k x H | xs i x H | xs]; simpl.
    + now apply assoc_first_binding.
    + rewrite string_of_nat_not_length.
      now rewrite (proj2 (index_of_key_spec (string_of_nat i) i) eq_refl).
    + reflexivity.
Qed.

Lemma has_own_spec (v : value) (k : string) : has_own v k = true <-> owns v k.
Proof.
  unfold has_own, owns. destruct (own_get v k) as [x |] eqn:Hx.
  - split; [intros _; exists x; now apply own_get_spec | reflexivity].
  - split; [discriminate |]. intros [x H]. apply own_get_spec in H. congruence.
Qed.

Lemma is_str_spec (x : value) (s : string) : is_str x s = true <-> x = VStr s.
Proof.
  destruct x; simpl; try (split; [discriminate | intros [=]]).
  rewrite String.eqb_eq. split; [now intros -> | now intros [= ->]].
Qed.





Section RequiredKeys.

Variable reIsDeepProp : string -> bool.
Variable has_parsed_path : value -> string -> bool.

(** For a name that lodash takes as a key, [_.has] is the test for an
    own property. *)
Lemma lodash_has_key (v : value) (name : string) :
  isKey reIsDeepProp name v = true ->
  lodash_has reIsDeepProp has_parsed_path v name = has_own v name.
Proof.
  unfold lodash_has. intros ->. now destruct v.
Qed.



End RequiredKeys.




(** The same run, evaluated: [a] is empty and [c] is absent. *)
Example required_sample :
  let v := obj [("a", VStr ""); ("b", VStr "x")] in
  required deep_by_dot has_path_by_dot (Some ["a"; "b"; "c"]) v (new_field [] v)
  = Ok (VArr [missed_issue "a"; missed_issue "c"]).
Proof. reflexivity. Qed.

(** A value that is not an object fails as a whole, and a rule that is
    switched off passes. *)
Example required_other_values :
  required deep_by_dot has_path_by_dot (Some ["a"]) (VNum (num_of_Z 1))
    (new_field [] (VNum (num_of_Z 1)))
  = Ok (VBool false)
  /\ required deep_by_dot has_path_by_dot None (obj []) (new_field [] (obj []))
     = Ok (VBool true)
  /\ required deep_by_dot has_path_by_dot (Some ["a"]) (obj [("a", VNull)])
       (new_field [] (obj [("a", VNull)]))
     = Ok (VArr [missed_issue "a"]).
Proof. repeat split. Qed.

(** ** [oneOf] *)

Section OneOf.

Variable validate : list value -> value -> value -> result report.

Lemma hasIssues_false (rep : report) : hasIssues rep = false <-> issues rep = [].
Proof.
  unfold hasIssues. destruct (issues rep); split; congruence.
Qed.

Lemma clean_not_failing (f : field) (v recipe : value) :
  clean validate f v recipe -> failing validate f v recipe -> False.
Proof.
  intros (rep & Hrep & Hnil) (rep' & Hrep' & Hcons). congruence.
Qed.

(** The loop stops at the first alternative whose report is clean, or
    runs through all of them. *)
Lemma oneOf_loop_cases (recipes : list value) (v : value) (f : field) :
  (forall r, In r recipes -> exists rep, validate (path f) v r = Ok rep) ->
  (exists pre r post,
      recipes = pre ++ r :: post
      /\ Forall (failing validate f v) pre
      /\ clean validate f v r
      /\ oneOf_loop validate recipes v f = (pre ++ [r], Ok (VBool true)))
  \/ (Forall (failing validate f v) recipes
      /\ oneOf_loop validate recipes v f = (recipes, Ok (VBool false))).
Proof.
  induction recipes as [| recipe rest IH]; intros Hall.
  - right. split; [constructor | reflexivity].
  - destruct (Hall recipe (or_introl eq_refl)) as [rep Hrep].
    simpl. rewrite Hrep.
    destruct (hasIssues rep) eqn:Hi; simpl.
    + assert (Hfail : failing validate f v recipe).
      { exists rep. split; [assumption |]. intros Hnil.
        apply hasIssues_false in Hnil. congruence. }
      destruct IH as [(pre & r & post & -> & Hpre & Hr & Hloop) | [Hrest Hloop]].
      * intros r Hr. apply Hall. now right.
      * left. exists (recipe :: pre), r, post. rewrite Hloop.
        repeat split; try assumption. now constructor.
      * right. rewrite Hloop. split; [now constructor | reflexivity].
    + left. exists [], recipe, rest. repeat split; try constructor.
      exists rep. split; [assumption | now apply hasIssues_false].
Qed.

End OneOf.

(** C2: when every alternative settles to a report, [oneOf] validates
    the alternatives one after the other in the declared order and
    stops at the first whose report has no issue; it passes if and only
    if there is such an alternative; and when every alternative has
    issues it has tried them all and returns [false], which makes one
    issue, the rule's own, none of the alternatives' issues. *)
Theorem oneOf_first_clean_alternative :
  forall (validate : list value -> value -> value -> result report)
         (recipes : list value) (v : value) (f : field),
    (forall r, In r recipes -> exists rep, validate (path f) v r = Ok rep) ->
    exists outcome,
      snd (oneOf validate recipes v f) = Ok outcome
      /\ (outcome_issues "oneOf" (VArr recipes) f outcome = [] <->
          exists r, In r recipes /\ clean validate f v r)
      /\ ((exists r, In r recipes /\ clean validate f v r) ->
          exists pre r post,
            recipes = pre ++ r :: post
            /\ Forall (failing validate f v) pre
            /\ clean validate f v r
            /\ fst (oneOf validate recipes v f) = pre ++ [r])
      /\ ((forall r, In r recipes -> failing validate f v r) ->
          fst (oneOf validate recipes v f) = recipes
          /\ outcome_issues "oneOf" (VArr recipes) f outcome
             = [generic_issue "oneOf" (VArr recipes) f]).
Proof.
  intros validate recipes v f Hall. unfold oneOf.
  destruct (oneOf_loop_cases validate recipes v f Hall)
    as [(pre & r & post & Heq & Hpre & Hr & Hloop) | [Hfail Hloop]];
    rewrite Hloop; simpl.
  - exists (VBool true). split; [reflexivity |].
    assert (Hex : exists r, In r recipes /\ clean validate f v r).
    { exists r. split; [| assumption]. rewrite Heq. apply in_elt. }
    split; [| split].
    + simpl. split; [intros _; assumption | reflexivity].
    + intros _. exists pre, r, post. repeat split; assumption.
    + intros Hno. destruct Hex as (r' & Hin & Hclean).
      destruct (clean_not_failing validate f v r' Hclean (Hno r' Hin)).
  - exists (VBool false). split; [reflexivity |].
    rewrite Forall_forall in Hfail.
    assert (Hno : ~ exists r, In r recipes /\ clean validate f v r).
    { intros (r & Hin & Hclean).
      exact (clean_not_failing validate f v r Hclean (Hfail r Hin)). }
    split; [| split].
    + simpl. split; [discriminate | intros H; now elim Hno].
    + intros H. now elim Hno.
    + intros _. split; reflexivity.
Qed.

Lemma oneOf_first_clean_alternative_witness :
  let recipes := [obj [("type", VStr "string")]; obj [("type", VStr "number")];
                  obj [("type", VStr "boolean")]] in
  let v := VNum (num_of_Z 5) in
  exists outcome,
    snd (oneOf validate_type recipes v (new_field [] v)) = Ok outcome
    /\ (outcome_issues "oneOf" (VArr recipes) (new_field [] v) outcome = [] <->
        exists r, In r recipes /\ clean validate_type (new_field [] v) v r).
Proof.
  intros recipes v.
  destruct (oneOf_first_clean_alternative validate_type recipes v (new_field [] v))
    as (outcome & Hout & Hiff & _).
  - intros r [<- | [<- | [<- | []]]]; eexists; reflexivity.
  - exists outcome. split; [exact Hout | exact Hiff].
Defined.

Example oneOf_samples :
  let recipes := [obj [("type", VStr "string")]; obj [("type", VStr "number")];
                  obj [("type", VStr "boolean")]] in
  oneOf validate_type recipes (VNum (num_of_Z 5)) (new_field [] (VNum (num_of_Z 5)))
  = ([obj [("type", VStr "string")]; obj [("type", VStr "number")]], Ok (VBool true))
  /\ oneOf validate_type recipes (VArr []) (new_field [] (VArr []))
     = (recipes, Ok (VBool false))
  /\ oneOf validate_type [] (VArr []) (new_field [] (VArr [])) = ([], Ok (VBool false)).
Proof. repeat split. Qed.

(** ** [properties] *)

Ltac option_cases :=
  repeat match goal with
  | |- context [match ?e with Some _ => _ | None => _ end] => destruct e
  end;
  eexists; reflexivity.

Lemma get_object_ok (v : value) (k : string) :
  typeof v = "object" -> v <> VNull -> exists x, get v k = Ok x.
Proof.
  intros Ht Hn. unfold get.
  destruct v; try discriminate; try (now elim Hn); option_cases.
Qed.

Lemma js_in_object (k : string) (schema : value) :
  lodash_isObject schema = true -> js_in k schema = Ok (declares k schema).
Proof.
  unfold declares. destruct schema; try discriminate; reflexivity.
Qed.

Lemma get_schema_ok (schema : value) (k : string) :
  lodash_isObject schema = true -> exists x, get schema k = Ok x.
Proof.
  unfold get. destruct schema; try discriminate; intros _; option_cases.
Qed.

Lemma assoc_keys (name : string) (accept : list (string * value)) :
  In name (keys_of accept) <->
  exists schema, assoc name accept = Some schema.
Proof.
  induction accept as [| [k x] accept IH]; simpl.
  - split; [intros [] | intros [? [=]]].
  - destruct (String.eqb k name) eqn:Hk.
    + apply String.eqb_eq in Hk. split; [intros _; now exists x | now left].
    + apply String.eqb_neq in Hk. rewrite <- IH. tauto.
Qed.

Lemma assoc_In (name : string) (accept : list (string * value)) (schema : value) :
  assoc name accept = Some schema -> In (name, schema) accept.
Proof.
  induction accept as [| [k x] accept IH]; simpl; [discriminate |].
  destruct (String.eqb k name) eqn:Hk.
  - apply String.eqb_eq in Hk. intros [= ->]. left. now subst.
  - intros H. right. now apply IH.
Qed.

Lemma assoc_none (name : string) (l : list (string * value)) :
  assoc name l = None <-> ~ In name (keys_of l).
Proof.
  rewrite assoc_keys. destruct (assoc name l) as [x |].
  - split; [discriminate |]. intros H. elim H. now exists x.
  - split; [| reflexivity]. intros _ [x [=]].
Qed.

(** What [k in schema] computes is that the schema has the key. *)
Lemma declares_spec (k : string) (schema : value) :
  declares k schema = true <-> has_key schema k.
Proof.
  unfold declares, has_key.
  destruct schema as [| | | | | xs | own inherited | |]; simpl;
    try (split; [discriminate | intros [[x H] | []]; inversion H]).
  - rewrite has_own_spec. tauto.
  - rewrite <- has_own_spec. unfold has_own. simpl.
    destruct (assoc k own) as [x |] eqn:Ho.
    + split; [now left | reflexivity].
    + destruct (assoc k inherited) as [y |] eqn:Hi.
      * split; [| reflexivity]. intros _. right. apply assoc_keys. now exists y.
      * split; [discriminate |]. intros [[=] | H].
        apply assoc_none in Hi. now elim Hi.
Qed.

(** What [v[name] === ''] computes is that the property has the empty
    string as value. *)
Lemma reads_empty_spec (v : value) (name : string) :
  reads_empty v name = true <-> has_value v name (VStr "").
Proof.
  unfold reads_empty, has_value. rewrite <- has_own_spec, <- own_get_spec.
  unfold has_own.
  destruct v as [| | | | | xs | own inherited | |];
    try (simpl; split; [discriminate | intros [[=] | [_ []]]]).
  - unfold get. destruct (own_get (VArr xs) name) as [x |].
    + rewrite is_str_spec. split; [intros ->; now left |].
      intros [[= ->] | [H _]]; [reflexivity | now elim H].
    + simpl. split; [discriminate | intros [[=] | [_ []]]].
  - simpl. destruct (assoc name own) as [x |].
    + rewrite is_str_spec. split; [intros ->; now left |].
      intros [[= ->] | [H _]]; [reflexivity | now elim H].
    + rewrite <- assoc_first_binding.
      destruct (assoc name inherited) as [y |].
      * rewrite is_str_spec. split.
        -- intros ->. right. split; [discriminate | reflexivity].
        -- intros [[=] | [_ [= ->]]]. reflexivity.
      * simpl. split; [discriminate | intros [[=] | [_ [=]]]].
Qed.






Section Properties.

Variable validate : list value -> value -> value -> result report.
Variable reIsDeepProp : string -> bool.
Variable has_parsed_path : value -> string -> bool.
Variable accept : list (string * value).
Variable v : value.

Hypothesis v_object : typeof v = "object".
Hypothesis v_not_null : v <> VNull.
Hypothesis names_are_keys :
  forall name, In name (keys_of accept) -> isKey reIsDeepProp name v = true.
Hypothesis schemas_are_objects :
  forall name schema, In (name, schema) accept -> lodash_isObject schema = true.
Hypothesis children_settle :
  forall name schema x,
    In (name, schema) accept -> exists rep, validate [VStr name] x schema = Ok rep.

(** The callback resolves a value exactly for a property that has a
    supplied value, a default, or an accepted empty string. *)
Lemma resolve_is_some (schema : value) (name : string) :
  isKey reIsDeepProp name v = true ->
  lodash_isObject schema = true ->
  exists o,
    resolve reIsDeepProp has_parsed_path schema v name = Ok o
    /\ (is_some o = true
        <-> owns v name
            \/ has_key schema "default"
            \/ (has_key schema "acceptEmpty" /\ has_value v name (VStr ""))).
Proof.
  intros Hkey Hs.
  setoid_rewrite <- has_own_spec. setoid_rewrite <- declares_spec.
  setoid_rewrite <- reads_empty_spec.
  unfold resolve, reads_empty.
  rewrite (lodash_has_key reIsDeepProp has_parsed_path v name Hkey).
  destruct (get_object_ok v name v_object v_not_null) as [x Hx]. rewrite Hx. simpl.
  destruct (has_own v name); simpl; [eexists; split; [reflexivity | simpl; tauto] |].
  rewrite !(js_in_object _ _ Hs).
  destruct (get_schema_ok schema "default" Hs) as [d Hd]. rewrite Hd.
  destruct (is_str x ""), (declares "acceptEmpty" schema),
    (declares "default" schema); simpl;
    try (eexists; split; [reflexivity | simpl; intuition congruence]);
    destruct d; eexists; (split; [reflexivity | simpl; intuition congruence]).
Qed.

Lemma property_report_yields (name : string) :
  In name (keys_of accept) ->
  exists r,
    property_report validate reIsDeepProp has_parsed_path accept v name = Ok r
    /\ yields accept v name r.
Proof.
  intros Hin. pose proof (names_are_keys name Hin) as Hkey.
  apply assoc_keys in Hin. destruct Hin as [schema Hschema].
  pose proof (assoc_In _ _ _ Hschema) as Hdecl.
  unfold property_report, obj, get. rewrite Hschema. simpl.
  destruct (resolve_is_some schema name Hkey (schemas_are_objects _ _ Hdecl))
    as (o & Ho & Hsome).
  rewrite Ho. simpl.
  assert (Hres : resolvable accept v name <-> is_some o = true).
  { unfold resolvable. rewrite Hsome. split.
    - intros (schema' & Hb & H). apply assoc_first_binding in Hb.
      rewrite Hschema in Hb. injection Hb as <-. exact H.
    - intros H. exists schema. split; [now apply assoc_first_binding | exact H]. }
  destruct o as [x |]; simpl in *.
  - destruct (children_settle name schema x Hdecl) as [rep Hrep].
    rewrite Hrep. simpl. exists (Some (name, rep)).
    split; [reflexivity |]. split; [reflexivity | now apply Hres].
  - exists None. split; [reflexivity |]. simpl. rewrite Hres. discriminate.
Qed.

Lemma property_reports_yield (names : list string) :
  incl names (keys_of accept) ->
  exists rs,
    property_reports validate reIsDeepProp has_parsed_path accept v names = Ok rs
    /\ Forall2 (yields accept v) names rs.
Proof.
  induction names as [| name names IH]; intros Hincl; simpl.
  - exists []. split; [reflexivity | constructor].
  - destruct (property_report_yields name) as (r & Hr & Hy);
      [apply Hincl; now left |].
    destruct IH as (rs & Hrs & Hys); [intros n Hn; apply Hincl; now right |].
    rewrite Hr, Hrs. simpl. exists (r :: rs). split; [reflexivity | now constructor].
Qed.


End Properties.





(** The same run with children that settle in the declared order,
    evaluated: the supplied [a] and the defaulted [b] are kept, [c] is
    skipped, and the undeclared [z] is dropped. *)
Example properties_sample :
  let accept := [("a", obj [("type", VStr "string")]);
                 ("b", obj [("type", VStr "number"); ("default", VNum (num_of_Z 7))]);
                 ("c", obj [("type", VStr "string")])] in
  let v := obj [("a", VStr "x"); ("z", VStr "extra")] in
  properties validate_type deep_by_dot has_path_by_dot in_declared_order accept v
    (new_field [] v)
  = Ok (VArr [],
        set_report_value (new_field [] v)
          (obj [("a", VStr "x"); ("b", VNum (num_of_Z 7))])).
Proof. reflexivity. Qed.

(** An inherited empty string is taken for a property marked
    [acceptEmpty], and left out for one that is not. *)
Example properties_accept_empty :
  let v := VObj [] [("a", VStr ""); ("b", VStr "")] in
  let accept := [("a", obj [("type", VStr "string"); ("acceptEmpty", VBool true)]);
                 ("b", obj [("type", VStr "string")])] in
  properties validate_type deep_by_dot has_path_by_dot in_declared_order accept v
    (new_field [] v)
  = Ok (VArr [], set_report_value (new_field [] v) (obj [("a", VStr "")])).
Proof. reflexivity. Qed.

(** [null] is passed, and a value that is not an object fails. *)
Example properties_other_cases :
  properties validate_type deep_by_dot has_path_by_dot in_declared_order
    [("a", obj [])] VNull (new_field [] VNull)
  = Ok (VBool true, new_field [] VNull)
  /\ properties validate_type deep_by_dot has_path_by_dot in_declared_order
       [("a", obj [])] (VStr "s") (new_field [] (VStr "s"))
     = Ok (VBool false, new_field [] (VStr "s")).
Proof. repeat split. Qed.

(** * Further properties of the rule set *)

(** ** [type] and the type checkers *)

(** X1: on [null] the [type] rule passes for the declared types
    [object], [string], [objectId] and [date], and for no other
    parameter. *)
Theorem type_null_convention :
  forall (ObjectId_isValid : value -> bool) (accept : value) (f : field),
    type ObjectId_isValid accept VNull (with_value f VNull) = VBool true
    <-> accept = VStr "object" \/ accept = VStr "string"
        \/ accept = VStr "objectId" \/ accept = VStr "date".
Proof.
  intros isValid accept f. unfold type, isObject, isNull, isArray, isString. simpl.
  destruct (is_str accept "object") eqn:H1;
    [apply is_str_true in H1; subst; simpl; tauto |].
  destruct (is_str accept "array") eqn:H2.
  { apply is_str_true in H2; subst; simpl. split; [discriminate |].
    intros [H | [H | [H | H]]]; discriminate H. }
  destruct (is_str accept "string") eqn:H3;
    [apply is_str_true in H3; subst; simpl; tauto |].
  destruct (is_str accept "objectId") eqn:H4;
    [apply is_str_true in H4; subst; simpl; tauto |].
  destruct (is_str accept "date") eqn:H5;
    [apply is_str_true in H5; subst; simpl; tauto |].
  simpl. split; [discriminate |].
  intros [H | [H | [H | H]]]; subst; simpl in *; discriminate.
Qed.

(** X2: on a value that is neither [undefined] nor [null], [type] with
    the parameter [string], [number], [boolean] or [array] passes
    exactly when the type checker [isString], [isNumber], [isBool] or
    [isArray] does; and whatever passes as [array] passes as [object]. *)
Theorem type_agrees_with_checkers :
  forall (ObjectId_isValid : value -> bool) (a v : value) (f : field),
    v <> VUndefined ->
    v <> VNull ->
    let f' := with_value f v in
    (type ObjectId_isValid (VStr "string") v f' = VBool true
       <-> rule_isString a v f' = VBool true)
    /\ (type ObjectId_isValid (VStr "number") v f' = VBool true
          <-> rule_isNumber a v f' = VBool true)
    /\ (type ObjectId_isValid (VStr "boolean") v f' = VBool true
          <-> rule_isBool a v f' = VBool true)
    /\ (type ObjectId_isValid (VStr "array") v f' = VBool true
          <-> rule_isArray a v f' = VBool true)
    /\ (type ObjectId_isValid (VStr "array") v f' = VBool true ->
        type ObjectId_isValid (VStr "object") v f' = VBool true).
Proof.
  intros isValid a v f Hu Hn f'. subst f'.
  destruct v; try (now elim Hu); try (now elim Hn);
    repeat split; try discriminate; try reflexivity.
Qed.

Lemma type_agrees_with_checkers_witness :
  let v := VArr [VStr "x"] in
  type (fun _ => false) (VStr "array") v (new_field [] v) = VBool true
  <-> rule_isArray VUndefined v (new_field [] v) = VBool true.
Proof.
  intros v.
  apply (type_agrees_with_checkers (fun _ => false) VUndefined v (new_field [] v));
    discriminate.
Defined.

(** ** [isInteger] *)

Lemma Qfloor_half (z : Z) : Qfloor (inject_Z z + (1 # 2)) = z.
Proof.
  pose proof (Qfloor_le (inject_Z z + (1 # 2))) as Hle.
  pose proof (Qlt_floor (inject_Z z + (1 # 2))) as Hlt.
  generalize dependent (Qfloor (inject_Z z + (1 # 2))). intros k Hle Hlt.
  rewrite inject_Z_plus in Hlt.
  assert (H1 : (k < z + 1)%Z).
  { rewrite Zlt_Qlt, inject_Z_plus. change (inject_Z 1) with 1%Q in *. lra. }
  assert (H2 : (z < k + 1)%Z).
  { rewrite Zlt_Qlt, inject_Z_plus. change (inject_Z 1) with 1%Q in *. lra. }
  lia.
Qed.

(** X3: [isInteger] passes on a finite number exactly when it is a
    whole number; it passes on both infinities and fails on [NaN] and on
    every value that is not a number. *)
Theorem isInteger_whole_numbers :
  forall (a : value) (f : field),
    (forall q : Q,
        rule_isInteger a (VNum (Fin q)) f = VBool true
        <-> exists z : Z, (q == inject_Z z)%Q)
    /\ rule_isInteger a (VNum PInf) f = VBool true
    /\ rule_isInteger a (VNum NInf) f = VBool true
    /\ rule_isInteger a (VNum NaN) f = VBool false
    /\ (forall v, typeof v <> "number" -> rule_isInteger a v f = VBool false).
Proof.
  intros a f. split; [| repeat split].
  - intros q.
    change (rule_isInteger a (VNum (Fin q)) f)
      with (VBool (Qeq_bool (inject_Z (Qfloor (q + (1 # 2)))) q)).
    split.
    + intros [= H]. apply Qeq_bool_iff in H.
      exists (Qfloor (q + (1 # 2))). now symmetry.
    + intros [z Hz]. f_equal. apply Qeq_bool_iff.
      assert (Hfloor : Qfloor (q + (1 # 2)) = z).
      { rewrite <- (Qfloor_half z). apply Qfloor_comp. now rewrite Hz. }
      rewrite Hfloor. now symmetry.
  - intros v Hv. destruct v; try reflexivity. now elim Hv.
Qed.

Lemma isInteger_whole_numbers_witness :
  rule_isInteger VUndefined (VNum (Fin (6 # 2))) (new_field [] VUndefined) = VBool true
  /\ rule_isInteger VUndefined (VStr "3") (new_field [] VUndefined) = VBool false.
Proof.
  destruct (isInteger_whole_numbers VUndefined (new_field [] VUndefined))
    as (Hfin & _ & _ & _ & Hother).
  split.
  - apply Hfin. exists 3%Z. reflexivity.
  - apply Hother. discriminate.
Defined.

(** ** [bounds] with [minimum] and [maximum] *)

(** X4: after the [bounds] filter with [min <= max], on a value that is
    not [NaN], the rules [minimum: min] and [maximum: max] both pass. *)
Theorem bounds_then_minimum_maximum :
  forall (lo hi v : num) (f : field),
    is_nan v = false ->
    num_leb lo hi = true ->
    let r := fst (bounds_filter [lo; hi] v f) in
    let f' := snd (bounds_filter [lo; hi] v f) in
    minimum lo r f' = VBool true /\ maximum hi r f' = VBool true.
Proof.
  intros lo hi v f Hnan Hle r f'. subst r f'.
  unfold minimum, maximum, bounds_filter, num_geb. simpl nth. simpl fst.
  destruct lo as [| |lo|], hi as [| |hi|], v as [| |v|]; try discriminate;
    split; f_equal; q_close.
Qed.

Lemma bounds_then_minimum_maximum_witness :
  let r := fst (bounds_filter [num_of_Z 1; num_of_Z 5] (num_of_Z 9)
                  (new_field [] (VNum (num_of_Z 9)))) in
  minimum (num_of_Z 1) r (new_field [] (VNum r)) = VBool true
  /\ maximum (num_of_Z 5) r (new_field [] (VNum r)) = VBool true.
Proof.
  intros r.
  exact (bounds_then_minimum_maximum (num_of_Z 1) (num_of_Z 5) (num_of_Z 9)
           (new_field [] (VNum (num_of_Z 9))) eq_refl eq_refl).
Defined.

(** ** White space and the length rules *)

Lemma skip_white_space_eq (s : string) :
  skip_white_space s
  = match white_char s with
    | Some r => skip_white_space r
    | None => s
    end.
Proof.
  destruct s as [| c1 [| c2 [| c3 s3]]]; simpl; try reflexivity.
  - now destruct (is_space c1).
  - destruct (is_space c1); [reflexivity |]. now destruct (is_space2 c1 c2).
  - destruct (is_space c1); [reflexivity |].
    destruct (is_space2 c1 c2); [reflexivity |]. now destruct (is_space3 c1 c2 c3).
Qed.

Lemma white_char_app (s r t : string) :
  white_char s = Some r -> white_char (s ++ t) = Some (r ++ t)%string.
Proof.
  destruct s as [| c1 [| c2 [| c3 s3]]]; simpl; try discriminate.
  - destruct (is_space c1); [| discriminate]. now intros [= <-].
  - destruct (is_space c1); [now intros [= <-] |].
    destruct (is_space2 c1 c2); [| discriminate]. now intros [= <-].
  - destruct (is_space c1); [now intros [= <-] |].
    destruct (is_space2 c1 c2); [now intros [= <-] |].
    destruct (is_space3 c1 c2 c3); [| discriminate]. now intros [= <-].
Qed.

Lemma white_char_shorter (s r : string) :
  white_char s = Some r -> String.length r < String.length s.
Proof.
  destruct s as [| c1 [| c2 [| c3 s3]]]; simpl; try discriminate.
  - destruct (is_space c1); [| discriminate]. intros [= <-]. simpl. lia.
  - destruct (is_space c1); [intros [= <-]; simpl; lia |].
    destruct (is_space2 c1 c2); [| discriminate]. intros [= <-]. simpl. lia.
  - destruct (is_space c1); [intros [= <-]; simpl; lia |].
    destruct (is_space2 c1 c2); [intros [= <-]; simpl; lia |].
    destruct (is_space3 c1 c2 c3); [| discriminate]. intros [= <-]. simpl. lia.
Qed.

(** Induction on a string along the white space that starts it. *)
Lemma white_induction (P : string -> Prop) :
  (forall s, white_char s = None -> P s) ->
  (forall s r, white_char s = Some r -> P r -> P s) ->
  forall s, P s.
Proof.
  intros Hnone Hsome s.
  assert (H : forall n s, String.length s < n -> P s).
  { induction n as [| n IH]; intros t Ht; [lia |].
    destruct (white_char t) as [r |] eqn:Hr; [| now apply Hnone].
    apply (Hsome t r Hr). apply IH.
    pose proof (white_char_shorter t r Hr). lia. }
  apply (H (S (String.length s))). lia.
Qed.

Lemma all_white_eq (s : string) : all_white s = true <-> skip_white_space s = "".
Proof.
  unfold all_white. destruct (skip_white_space s); split; congruence.
Qed.

Lemma skip_white_space_app (s t : string) :
  all_white s = true -> skip_white_space (s ++ t) = skip_white_space t.
Proof.
  induction s as [s Hs | s r Hr IH] using white_induction; rewrite all_white_eq.
  - rewrite (skip_white_space_eq s), Hs. now intros ->.
  - rewrite (skip_white_space_eq s), Hr. intros H.
    rewrite (skip_white_space_eq (s ++ t)), (white_char_app s r t Hr).
    apply IH. now apply all_white_eq.
Qed.

Lemma skip_white_space_clean (s : string) : white_char (skip_white_space s) = None.
Proof.
  induction s as [s Hs | s r Hr IH] using white_induction;
    rewrite skip_white_space_eq.
  - now rewrite Hs.
  - now rewrite Hr.
Qed.

Lemma skip_white_space_of_clean (s : string) :
  white_char s = None -> skip_white_space s = s.
Proof. intros H. now rewrite skip_white_space_eq, H. Qed.

Lemma trim_end_cons (c : ascii) (s : string) :
  trim_end (String c s)
  = if all_white (String c s) then "" else String c (trim_end s).
Proof. reflexivity. Qed.

(** What [trim_end] drops is white space. *)
Lemma trim_end_split (s : string) :
  exists w, s = (trim_end s ++ w)%string /\ all_white w = true.
Proof.
  induction s as [| c s (w & Hw & Hwhite)]; [now exists "" |].
  rewrite trim_end_cons. destruct (all_white (String c s)) eqn:Hc.
  - now exists (String c s).
  - exists w. split; [| assumption]. simpl. now rewrite <- Hw.
Qed.

Lemma trim_end_idempotent (s : string) : trim_end (trim_end s) = trim_end s.
Proof.
  induction s as [| c s IH]; [reflexivity |].
  rewrite trim_end_cons. destruct (all_white (String c s)) eqn:Hc; [reflexivity |].
  rewrite trim_end_cons, IH.
  destruct (all_white (String c (trim_end s))) eqn:Ht; [| reflexivity].
  destruct (trim_end_split s) as (w & Hw & Hwhite).
  assert (H : all_white (String c s) = true); [| congruence].
  apply all_white_eq.
  replace (String c s) with (String c (trim_end s) ++ w)%string
    by (simpl; now rewrite <- Hw).
  rewrite (skip_white_space_app _ w Ht). now apply all_white_eq.
Qed.

Lemma trim_end_clean (s : string) :
  white_char s = None -> white_char (trim_end s) = None.
Proof.
  intros Hs. destruct (white_char (trim_end s)) as [r |] eqn:Hr; [| reflexivity].
  destruct (trim_end_split s) as (w & Hw & _).
  apply (white_char_app _ _ w) in Hr. rewrite <- Hw in Hr. congruence.
Qed.

Lemma trim_idempotent (s : string) : trim (trim s) = trim s.
Proof.
  unfold trim.
  rewrite (skip_white_space_of_clean (trim_end (skip_white_space s)))
    by apply trim_end_clean, skip_white_space_clean.
  apply trim_end_idempotent.
Qed.

(** A byte of one-byte white space is no part of a longer white space
    character. *)
Lemma is_space_small (a : ascii) : is_space a = true -> nat_of_ascii a <= 32.
Proof.
  destruct a as [b0 b1 b2 b3 b4 b5 b6 b7];
    destruct b0, b1, b2, b3, b4, b5, b6, b7; (discriminate || (intros _; cbv; lia)).
Qed.

Ltac byte_tests :=
  repeat match goal with
  | |- context [Nat.eqb ?x ?y] => destruct (Nat.eqb_spec x y); try lia
  | |- context [Nat.leb ?x ?y] => destruct (Nat.leb_spec x y); try lia
  end;
  try reflexivity.

Lemma is_space2_second (c a : ascii) : is_space a = true -> is_space2 c a = false.
Proof.
  intros H. apply is_space_small in H. unfold is_space2.
  destruct (Nat.eqb_spec (nat_of_ascii a) 160); [lia |]. apply andb_false_r.
Qed.

Lemma is_space3_second (c a b : ascii) : is_space a = true -> is_space3 c a b = false.
Proof.
  intros H. apply is_space_small in H. unfold is_space3.
  generalize dependent (nat_of_ascii a). generalize (nat_of_ascii c).
  generalize (nat_of_ascii b). intros n3 n1 n2 H. cbv zeta. byte_tests.
Qed.

Lemma is_space3_third (c d a : ascii) : is_space a = true -> is_space3 c d a = false.
Proof.
  intros H. apply is_space_small in H. unfold is_space3.
  generalize dependent (nat_of_ascii a). generalize (nat_of_ascii c).
  generalize (nat_of_ascii d). intros n2 n1 n3 H. cbv zeta. byte_tests.
Qed.

Lemma white_char_padded (t r : string) :
  white_char t = None -> t <> "" -> all_space r = true ->
  white_char (t ++ r) = None.
Proof.
  intros Ht Hne Hr. destruct t as [| c1 [| c2 [| c3 t3]]]; [now elim Hne | | |].
  - simpl in *. destruct (is_space c1); [discriminate |].
    destruct r as [| a r]; [reflexivity |]. simpl in Hr.
    apply andb_true_iff in Hr. destruct Hr as [Ha Hr].
    rewrite (is_space2_second c1 a Ha).
    destruct r as [| b r]; [reflexivity |]. now rewrite (is_space3_second c1 a b Ha).
  - simpl in *. destruct (is_space c1); [discriminate |].
    destruct (is_space2 c1 c2); [discriminate |].
    destruct r as [| a r]; [reflexivity |]. simpl in Hr.
    apply andb_true_iff in Hr. destruct Hr as [Ha Hr].
    now rewrite (is_space3_third c1 c2 a Ha).
  - simpl in *. destruct (is_space c1); [discriminate |].
    destruct (is_space2 c1 c2); [discriminate |].
    destruct (is_space3 c1 c2 c3); [discriminate | reflexivity].
Qed.

Lemma skip_white_space_spaces (l s : string) :
  all_space l = true -> skip_white_space (l ++ s) = skip_white_space s.
Proof.
  induction l as [| c l IH]; [reflexivity |]. simpl (all_space _).
  intros H. apply andb_true_iff in H. destruct H as [Hc Hl].
  rewrite <- (IH Hl). simpl. now rewrite Hc.
Qed.

Lemma all_space_white (r : string) : all_space r = true -> all_white r = true.
Proof.
  intros H. apply all_white_eq.
  induction r as [| c r IH]; [reflexivity |].
  simpl in H. apply andb_true_iff in H. destruct H as [Hc Hr].
  rewrite <- (IH Hr). simpl. now rewrite Hc.
Qed.

Lemma skip_white_space_padded (s r : string) :
  all_white s = false -> all_space r = true ->
  skip_white_space (s ++ r) = (skip_white_space s ++ r)%string.
Proof.
  intros Hs Hr. revert Hs.
  induction s as [s Hnone | s t Ht IH] using white_induction; intros Hs.
  - rewrite (skip_white_space_of_clean s Hnone).
    apply skip_white_space_of_clean, white_char_padded; try assumption.
    intros ->. discriminate.
  - rewrite (skip_white_space_eq (s ++ r)), (white_char_app s t r Ht).
    rewrite (skip_white_space_eq s), Ht. apply IH.
    unfold all_white in *. now rewrite (skip_white_space_eq s), Ht in Hs.
Qed.

Lemma all_white_padded (s r : string) :
  all_space r = true -> s <> "" -> all_white (s ++ r) = all_white s.
Proof.
  intros Hr Hne. destruct (all_white s) eqn:Hs.
  - apply all_white_eq. rewrite (skip_white_space_app s r Hs).
    now apply all_white_eq, all_space_white.
  - unfold all_white. rewrite (skip_white_space_padded s r Hs Hr).
    unfold all_white in Hs. now destruct (skip_white_space s).
Qed.

Lemma trim_end_padded (s r : string) :
  all_space r = true -> trim_end (s ++ r) = trim_end s.
Proof.
  intros Hr. induction s as [| c s IH].
  - simpl. destruct r as [| a r]; [reflexivity |].
    rewrite trim_end_cons. now rewrite (all_space_white _ Hr).
  - change (String c s ++ r)%string with (String c (s ++ r)).
    rewrite !trim_end_cons, IH.
    change (String c (s ++ r)) with (String c s ++ r)%string.
    now rewrite (all_white_padded (String c s) r Hr).
Qed.

(** White space around a string does not change what [trim] returns. *)
Lemma trim_surrounded (l s r : string) :
  all_space l = true -> all_space r = true -> trim (l ++ s ++ r) = trim s.
Proof.
  intros Hl Hr. unfold trim. rewrite (skip_white_space_spaces l _ Hl).
  destruct (all_white s) eqn:Hs.
  - rewrite (skip_white_space_app s r Hs).
    apply all_white_eq in Hs. rewrite Hs.
    pose proof (all_space_white r Hr) as Hw. apply all_white_eq in Hw. now rewrite Hw.
  - rewrite (skip_white_space_padded s r Hs Hr). now apply trim_end_padded.
Qed.

Lemma toLowerCase_idempotent (s : string) : toLowerCase (toLowerCase s) = toLowerCase s.
Proof.
  induction s as [| c s IH]; [reflexivity |].
  change (String (lower_char (lower_char c)) (toLowerCase (toLowerCase s))
          = String (lower_char c) (toLowerCase s)).
  rewrite IH. f_equal.
  destruct (is_upper c) eqn:Hc.
  - destruct (lower_char_upper c Hc) as [_ Hu].
    unfold lower_char at 1. now rewrite Hu.
  - unfold lower_char. now rewrite Hc, Hc.
Qed.

Lemma upper_char_idempotent (c : ascii) : upper_char (upper_char c) = upper_char c.
Proof.
  destruct c as [b0 b1 b2 b3 b4 b5 b6 b7];
    destruct b0, b1, b2, b3, b4, b5, b6, b7; reflexivity.
Qed.

Lemma toUpperCase_idempotent (s : string) : toUpperCase (toUpperCase s) = toUpperCase s.
Proof.
  induction s as [| c s IH]; [reflexivity |].
  change (String (upper_char (upper_char c)) (toUpperCase (toUpperCase s))
          = String (upper_char c) (toUpperCase s)).
  now rewrite IH, upper_char_idempotent.
Qed.

(** X5: the filters [trim], [toLowerCase] and [toUpperCase] are
    idempotent: on a field that holds the value, a second application
    returns what the first returned, for a string and for any other
    value alike. *)
Theorem string_filters_idempotent :
  forall (accept v r : value) (f : field),
    (trim_filter accept v (with_value f v) = Ok r ->
     trim_filter accept r (with_value f r) = Ok r)
    /\ (toLowerCase_filter accept v (with_value f v) = Ok r ->
        toLowerCase_filter accept r (with_value f r) = Ok r)
    /\ (toUpperCase_filter accept v (with_value f v) = Ok r ->
        toUpperCase_filter accept r (with_value f r) = Ok r).
Proof.
  intros accept v r f.
  unfold trim_filter, toLowerCase_filter, toUpperCase_filter, string_filter, isString.
  destruct v; simpl; repeat split; intros [= <-]; simpl; try reflexivity.
  - now rewrite trim_idempotent.
  - now rewrite toLowerCase_idempotent.
  - now rewrite toUpperCase_idempotent.
Qed.

Lemma string_filters_idempotent_witness :
  trim_filter VUndefined (VStr "ab c") (new_field [] (VStr "ab c")) = Ok (VStr "ab c")
  /\ toUpperCase_filter VUndefined (VStr "AB1") (new_field [] (VStr "AB1"))
     = Ok (VStr "AB1").
Proof.
  split.
  - destruct (string_filters_idempotent VUndefined (VStr "  ab c ") (VStr "ab c")
                (new_field [] VUndefined)) as (Htrim & _ & _).
    apply Htrim. reflexivity.
  - destruct (string_filters_idempotent VUndefined (VStr "ab1") (VStr "AB1")
                (new_field [] VUndefined)) as (_ & _ & Hupper).
    apply Hupper. reflexivity.
Defined.

Lemma utf16_length_app (s t : string) :
  utf16_length (s ++ t) = utf16_length s + utf16_length t.
Proof.
  induction s as [| c s IH]; [reflexivity |].
  change (utf16_units c + utf16_length (s ++ t)
          = utf16_units c + utf16_length s + utf16_length t).
  rewrite IH. lia.
Qed.

Lemma utf16_length_spaces (l : string) :
  all_space l = true -> utf16_length l = String.length l.
Proof.
  induction l as [| c l IH]; [reflexivity |]. simpl (all_space _).
  intros H. apply andb_true_iff in H. destruct H as [Hc Hl].
  change (utf16_units c + utf16_length l = S (String.length l)).
  rewrite (IH Hl). apply is_space_small in Hc. unfold utf16_units.
  destruct (Nat.ltb_spec (nat_of_ascii c) 128); lia.
Qed.

(** X6: [minLength] and [maxLength] measure a string without the white
    space around it: padding the string with tabs, line breaks and
    spaces on either side changes neither verdict, and the verdict
    compares the parameter with the length of the trimmed string,
    counted in UTF-16 code units.  [length] measures the string as it
    is, padding included. *)
Theorem length_rules_on_strings :
  forall (accept : num) (l s r : string) (f : field),
    all_space l = true ->
    all_space r = true ->
    let padded := VStr (l ++ s ++ r)%string in
    let n := num_of_Z (Z.of_nat (utf16_length (trim s))) in
    let m := (String.length l + utf16_length s + String.length r)%nat in
    minLength accept padded (with_value f padded) = Ok (VBool (num_geb n accept))
    /\ maxLength accept padded (with_value f padded) = Ok (VBool (num_leb n accept))
    /\ rule_length accept padded (with_value f padded)
       = Ok (VBool (num_eqb (num_of_Z (Z.of_nat m)) accept)).
Proof.
  intros accept l s r f Hl Hr padded n m. subst padded n m.
  unfold minLength, maxLength, rule_length, trimmed_if_string, isString, isArray.
  simpl. rewrite (trim_surrounded l s r Hl Hr).
  rewrite !utf16_length_app, (utf16_length_spaces l Hl), (utf16_length_spaces r Hr).
  rewrite Nat.add_assoc. repeat split.
Qed.

Lemma length_rules_on_strings_witness :
  minLength (num_of_Z 2) (VStr "  é  ") (new_field [] (VStr "  é  ")) = Ok (VBool false)
  /\ maxLength (num_of_Z 2) (VStr "  é  ") (new_field [] (VStr "  é  ")) = Ok (VBool true)
  /\ rule_length (num_of_Z 5) (VStr "  é  ") (new_field [] (VStr "  é  "))
     = Ok (VBool true).
Proof.
  destruct (length_rules_on_strings (num_of_Z 2) "  " "é" "  " (new_field [] VUndefined)
              eq_refl eq_refl) as (Hmin & Hmax & _).
  destruct (length_rules_on_strings (num_of_Z 5) "  " "é" "  " (new_field [] VUndefined)
              eq_refl eq_refl) as (_ & _ & Hlen).
  split; [exact Hmin | split; [exact Hmax | exact Hlen]].
Defined.

(** ** [clearPhone], [clearFormField] and [sanitizeRegex] *)

Lemma filter_string_all (p : ascii -> bool) (s : string) :
  all_chars p (filter_string p s) = true.
Proof.
  induction s as [| c s IH]; simpl; [reflexivity |].
  destruct (p c) eqn:Hc; simpl; [now rewrite Hc | assumption].
Qed.

Lemma filter_string_of_all (p : ascii -> bool) (s : string) :
  all_chars p s = true -> filter_string p s = s.
Proof.
  induction s as [| c s IH]; simpl; [reflexivity |].
  intros H. apply andb_true_iff in H. destruct H as [Hc Hs].
  now rewrite Hc, IH.
Qed.

Lemma filter_string_length (p : ascii -> bool) (s : string) :
  String.length (filter_string p s) <= String.length s.
Proof.
  induction s as [| c s IH]; simpl; [lia |].
  destruct (p c); simpl; lia.
Qed.

Lemma phone_char_no_space (c : ascii) : is_phone_char c = true -> starts_white c = false.
Proof.
  destruct c as [b0 b1 b2 b3 b4 b5 b6 b7];
    destruct b0, b1, b2, b3, b4, b5, b6, b7; (reflexivity || discriminate).
Qed.

(** No white space character starts with a byte that starts none. *)
Lemma white_char_none (c : ascii) (s : string) :
  starts_white c = false -> white_char (String c s) = None.
Proof.
  unfold starts_white. intros H. apply orb_false_iff in H. destruct H as [Hc Hn].
  destruct s as [| c2 [| c3 s3]]; simpl; rewrite Hc; [reflexivity | |].
  - unfold is_space2. revert Hn. generalize (nat_of_ascii c), (nat_of_ascii c2).
    intros n1 n2. cbv zeta. byte_tests; discriminate.
  - unfold is_space2, is_space3. revert Hn.
    generalize (nat_of_ascii c), (nat_of_ascii c2), (nat_of_ascii c3).
    intros n1 n2 n3. cbv zeta. byte_tests; discriminate.
Qed.

Lemma trim_end_no_space (p : ascii -> bool) (s : string) :
  (forall c, p c = true -> starts_white c = false) ->
  all_chars p s = true -> trim_end s = s.
Proof.
  intros Hp. induction s as [| c s IH]; [reflexivity |].
  simpl (all_chars _ _). intros H. apply andb_true_iff in H. destruct H as [Hc Hs].
  rewrite trim_end_cons, (IH Hs). unfold all_white.
  now rewrite (skip_white_space_of_clean _ (white_char_none c s (Hp c Hc))).
Qed.

Lemma trim_no_space (p : ascii -> bool) (s : string) :
  (forall c, p c = true -> starts_white c = false) ->
  all_chars p s = true -> trim s = s.
Proof.
  intros Hp Hs. unfold trim.
  rewrite skip_white_space_of_clean.
  - now apply (trim_end_no_space p).
  - destruct s as [| c s]; [reflexivity |]. simpl in Hs.
    apply andb_true_iff in Hs. now apply white_char_none, Hp.
Qed.

(** X7: what [clearPhone] of [utils.js] returns consists of digits and
    plus signs only, in the order they have in the input; its final
    [trim] never removes anything; and clearing a cleared string
    changes nothing. *)
Theorem utils_clearPhone_digits_and_plus :
  forall phone : string,
    all_chars is_phone_char (utils_clearPhone phone) = true
    /\ utils_clearPhone phone = filter_string is_phone_char phone
    /\ utils_clearPhone (utils_clearPhone phone) = utils_clearPhone phone
    /\ String.length (utils_clearPhone phone) <= String.length phone.
Proof.
  intros phone.
  assert (Hid : utils_clearPhone phone = filter_string is_phone_char phone).
  { unfold utils_clearPhone.
    apply (trim_no_space is_phone_char);
      [exact phone_char_no_space | apply filter_string_all]. }
  assert (Hall : all_chars is_phone_char (utils_clearPhone phone) = true)
    by (rewrite Hid; apply filter_string_all).
  repeat split; try assumption.
  - unfold utils_clearPhone at 1.
    change (fun c => is_digit c || Ascii.eqb c "+") with is_phone_char.
    rewrite (filter_string_of_all _ _ Hall).
    rewrite Hid in Hall |- *.
    now apply (trim_no_space is_phone_char); [exact phone_char_no_space |].
  - rewrite Hid. apply filter_string_length.
Qed.

(** X8: [clearFormField] raises on every value that is not a string; on
    a string it returns a string of letters and digits only, and a
    second application changes nothing. *)
Theorem clearFormField_alphanumeric :
  forall (accept : value) (f : field),
    (forall v, typeof v <> "string" -> clearFormField_filter accept v f = Throw)
    /\ (forall s, exists r,
           clearFormField_filter accept (VStr s) f = Ok (VStr r)
           /\ all_chars is_alnum r = true
           /\ clearFormField_filter accept (VStr r) f = Ok (VStr r)).
Proof.
  intros accept f. split.
  - intros v Hv. destruct v; try reflexivity. now elim Hv.
  - intros s. exists (filter_string is_alnum s). simpl. repeat split.
    + apply filter_string_all.
    + now rewrite (filter_string_of_all _ _ (filter_string_all is_alnum s)).
Qed.

Lemma clearFormField_alphanumeric_witness :
  clearFormField_filter VUndefined (VNum (num_of_Z 7)) (new_field [] VUndefined) = Throw.
Proof.
  apply (clearFormField_alphanumeric VUndefined (new_field [] VUndefined)).
  discriminate.
Defined.

Lemma special_not_backslash (c : ascii) :
  is_regex_special c = true -> Ascii.eqb c "\" = false.
Proof.
  destruct c as [b0 b1 b2 b3 b4 b5 b6 b7];
    destruct b0, b1, b2, b3, b4, b5, b6, b7; (reflexivity || discriminate).
Qed.

Lemma sanitizeRegex_head (s : string) :
  match sanitizeRegex s with
  | String d _ => is_regex_special d
  | EmptyString => false
  end = false.
Proof.
  destruct s as [| c s]; simpl; [reflexivity |].
  destruct (is_regex_special c) eqn:Hc; [reflexivity | exact Hc].
Qed.

(** X9: [sanitizeRegex] of [utils.js] loses nothing: dropping the
    backslashes it put before the characters [+ . ) ( ] [] gives the
    string back (so two strings with the same result are equal), and
    the result is longer by one character for each of them. *)
Theorem sanitizeRegex_round_trip :
  forall s : string,
    unescape (sanitizeRegex s) = s
    /\ String.length (sanitizeRegex s)
       = String.length s + count_chars is_regex_special s.
Proof.
  induction s as [| c s [IHu IHl]]; [split; reflexivity |].
  simpl (sanitizeRegex _). simpl (count_chars _ _).
  destruct (is_regex_special c) eqn:Hc.
  - split.
    + change (unescape (String "\" (String c (sanitizeRegex s))))
        with (if Ascii.eqb "\" "\" && is_regex_special c
              then unescape (String c (sanitizeRegex s))
              else String "\" (unescape (String c (sanitizeRegex s)))).
      rewrite Hc. simpl (Ascii.eqb _ _ && true).
      change (unescape (String c (sanitizeRegex s)))
        with (if Ascii.eqb c "\" && match sanitizeRegex s with
                                    | String d _ => is_regex_special d
                                    | EmptyString => false
                                    end
              then unescape (sanitizeRegex s)
              else String c (unescape (sanitizeRegex s))).
      rewrite (special_not_backslash c Hc). simpl. now rewrite IHu.
    + simpl. rewrite IHl. lia.
  - split.
    + change (unescape (String c (sanitizeRegex s)))
        with (if Ascii.eqb c "\" && match sanitizeRegex s with
                                    | String d _ => is_regex_special d
                                    | EmptyString => false
                                    end
              then unescape (sanitizeRegex s)
              else String c (unescape (sanitizeRegex s))).
      rewrite sanitizeRegex_head, andb_false_r. now rewrite IHu.
    + simpl. rewrite IHl. lia.
Qed.

(** ** [items] *)

Lemma flatten_from {A : Type} (get_rep : A -> list value) (has : A -> bool)
    (rs : list A) (acc : list value) :
  (forall r, has r = false -> get_rep r = []) ->
  fold_left (fun result r => if has r then result ++ get_rep r else result) rs acc
  = acc ++ List.concat (map get_rep rs).
Proof.
  intros Hhas. revert acc. induction rs as [| r rs IH]; intros acc; simpl.
  - now rewrite app_nil_r.
  - rewrite IH. destruct (has r) eqn:Hr.
    + now rewrite <- app_assoc.
    + now rewrite (Hhas r Hr).
Qed.

Lemma flatten_item_issues_concat (reports : list report) :
  flatten_item_issues reports = List.concat (map issues reports).
Proof.
  unfold flatten_item_issues.
  rewrite (flatten_from issues hasIssues); [reflexivity |].
  intros r Hr. now apply hasIssues_false.
Qed.

Lemma item_reports_settle
    (validate : list value -> value -> value -> result report)
    (accept : value) (xs : list value) (i : nat) :
  (forall k x, nth_error xs k = Some x ->
               exists r, validate [index_segment (i + k)] x accept = Ok r) ->
  exists reports,
    item_reports validate accept xs i = Ok reports
    /\ List.length reports = List.length xs
    /\ (forall k x, nth_error xs k = Some x ->
          exists r, nth_error reports k = Some r
                    /\ validate [index_segment (i + k)] x accept = Ok r).
Proof.
  revert i. induction xs as [| x xs IH]; intros i Hall; simpl.
  - exists []. repeat split. intros [| k] y; discriminate.
  - destruct (Hall 0 x eq_refl) as [r Hr]. rewrite Nat.add_0_r in Hr. rewrite Hr.
    destruct (IH (S i)) as (rs & Hrs & Hlen & Hnth).
    { intros k y Hk. rewrite Nat.add_succ_comm. now apply (Hall (S k)). }
    rewrite Hrs. simpl. exists (r :: rs). repeat split.
    + simpl. now rewrite Hlen.
    + intros [| k] y Hk.
      * injection Hk as <-. exists r. rewrite Nat.add_0_r. now split.
      * destruct (Hnth k y Hk) as (r' & Hr' & Hv). exists r'.
        rewrite <- Nat.add_succ_comm. now split.
Qed.

(** X10: [items] on a field that holds no array returns [false] and
    leaves the field alone.  On an array whose children all settle it
    stores an array of the same length, whose entry at each index is the
    value of the report of the child validated at that index, and
    returns the children's issues, concatenated in index order; it
    passes exactly when every child report is free of issues. *)
Theorem items_index_aligned :
  forall (validate : list value -> value -> value -> result report)
         (accept : value) (f : field),
    (forall v, (forall xs, v <> VArr xs) ->
               items validate accept v (with_value f v)
               = Ok (VBool false, with_value f v))
    /\ (forall xs,
          (forall k x, nth_error xs k = Some x ->
                       exists r, validate [index_segment k] x accept = Ok r) ->
          exists reports,
            items validate accept (VArr xs) (with_value f (VArr xs))
            = Ok (VArr (List.concat (map issues reports)),
                  set_report_value (with_value f (VArr xs))
                    (VArr (map report_value reports)))
            /\ List.length reports = List.length xs
            /\ (forall k x, nth_error xs k = Some x ->
                  exists r, nth_error reports k = Some r
                            /\ validate [index_segment k] x accept = Ok r)
            /\ (List.concat (map issues reports) = []
                <-> forall r, In r reports -> issues r = [])).
Proof.
  intros validate accept f. split.
  - intros v Hv. unfold items, isArray. simpl.
    destruct v as [| | | | | xs | | |]; try reflexivity. now elim (Hv xs).
  - intros xs Hall.
    destruct (item_reports_settle validate accept xs 0 Hall)
      as (reports & Hrun & Hlen & Hnth).
    exists reports. unfold items, isArray. simpl. rewrite Hrun. simpl.
    rewrite flatten_item_issues_concat. repeat split; try assumption.
    + intros Hnil r Hin. induction reports as [| r' rs IH]; [destruct Hin |].
      simpl in Hnil. apply app_eq_nil in Hnil. destruct Hnil as [Hr Hrs].
      destruct Hin as [<- | Hin]; [assumption |].
      clear Hrun Hlen Hnth. revert Hrs Hin. clear. intros Hrs Hin.
      induction rs as [| r'' rs IH]; [destruct Hin |].
      simpl in Hrs. apply app_eq_nil in Hrs. destruct Hrs as [H1 H2].
      destruct Hin as [<- | Hin]; [assumption | now apply IH].
    + intros Hclean. clear Hrun Hlen Hnth.
      induction reports as [| r rs IH]; [reflexivity |].
      simpl. rewrite (Hclean r (or_introl eq_refl)). simpl.
      apply IH. intros r' Hr'. apply Hclean. now right.
Qed.

Lemma items_index_aligned_witness :
  let xs := [VStr "a"; VNum (num_of_Z 2)] in
  exists reports,
    items validate_type (obj [("type", VStr "string")]) (VArr xs) (new_field [] (VArr xs))
    = Ok (VArr (List.concat (map issues reports)),
          set_report_value (new_field [] (VArr xs)) (VArr (map report_value reports)))
    /\ List.length reports = List.length xs.
Proof.
  intros xs.
  destruct (items_index_aligned validate_type (obj [("type", VStr "string")])
              (new_field [] (VArr xs))) as [_ Harr].
  destruct (Harr xs) as (reports & Hrun & Hlen & _).
  - intros k x Hk. eexists. reflexivity.
  - exists reports. split; [exact Hrun | exact Hlen].
Defined.

Example items_sample :
  let xs := [VStr "a"; VNum (num_of_Z 2)] in
  items validate_type (obj [("type", VStr "string")]) (VArr xs) (new_field [] (VArr xs))
  = Ok (VArr [obj [("value", VNum (num_of_Z 2)); ("accept", VStr "string");
                   ("current", VStr "number")]],
        set_report_value (new_field [] (VArr xs)) (VArr xs))
  /\ outcome_issues "items" (obj []) (new_field [] (VStr "s")) (VBool false)
     = [generic_issue "items" (obj []) (new_field [] (VStr "s"))].
Proof. split; reflexivity. Qed.

(** ** More on [properties] *)

Lemma flatten_issues_concat (rs : list (option (string * report))) :
  flatten_issues rs = List.concat (map child_issues rs).
Proof.
  unfold flatten_issues.
  assert (H : forall acc,
             fold_left
               (fun result r =>
                  match r with
                  | Some (_, rep) =>
                      if hasIssues rep then result ++ issues rep else result
                  | None => result
                  end) rs acc
             = acc ++ List.concat (map child_issues rs)).
  { induction rs as [| r rs IH]; intros acc; simpl.
    - now rewrite app_nil_r.
    - rewrite IH. destruct r as [[name rep] |]; simpl; [| reflexivity].
      destruct (hasIssues rep) eqn:Hi.
      + now rewrite <- app_assoc.
      + apply hasIssues_false in Hi. now rewrite Hi. }
  apply H.
Qed.

Lemma concat_nil_iff {A : Type} (ls : list (list A)) :
  List.concat ls = [] <-> forall l, In l ls -> l = [].
Proof.
  induction ls as [| l ls IH]; simpl.
  - split; [intros _ l [] | reflexivity].
  - split.
    + intros H. apply app_eq_nil in H. destruct H as [Hl Hls].
      intros l' [<- | Hin]; [assumption | now apply IH].
    + intros H. rewrite (H l (or_introl eq_refl)). simpl.
      apply IH. intros l' Hl'. apply H. now right.
Qed.

Lemma property_reports_callbacks
    (validate : list value -> value -> value -> result report)
    (reIsDeepProp : string -> bool) (has_parsed_path : value -> string -> bool)
    (accept : list (string * value)) (v : value) (names : list string)
    (rs : list (option (string * report))) :
  property_reports validate reIsDeepProp has_parsed_path accept v names = Ok rs ->
  Forall2
    (fun name r =>
       property_report validate reIsDeepProp has_parsed_path accept v name = Ok r)
    names rs.
Proof.
  revert rs. induction names as [| name names IH]; intros rs; simpl.
  - intros [= <-]. constructor.
  - destruct (property_report validate reIsDeepProp has_parsed_path accept v name)
      as [r |] eqn:Hr; simpl; [| discriminate].
    destruct (property_reports validate reIsDeepProp has_parsed_path accept v names)
      as [rs' |]; simpl; [| discriminate].
    intros [= <-]. constructor; [assumption | now apply IH].
Qed.

Lemma assoc_obj_set_same (out : list (string * value)) (k : string) (x : value) :
  assoc k (obj_set out k x) = Some x.
Proof.
  induction out as [| [k' y] out IH]; simpl.
  - now rewrite String.eqb_refl.
  - destruct (String.eqb k' k) eqn:Hk; simpl; now rewrite Hk.
Qed.

Lemma assoc_obj_set_other (out : list (string * value)) (k n : string) (x : value) :
  k <> n -> assoc k (obj_set out n x) = assoc k out.
Proof.
  intros Hkn. induction out as [| [k' y] out IH]; simpl.
  - apply not_eq_sym, String.eqb_neq in Hkn. now rewrite Hkn.
  - destruct (String.eqb k' n) eqn:Hn; simpl.
    + apply String.eqb_eq in Hn. subst k'.
      apply not_eq_sym, String.eqb_neq in Hkn. now rewrite Hkn.
    + destruct (String.eqb k' k); [reflexivity | assumption].
Qed.

Lemma report_keys_yields (accept : list (string * value)) (v : value)
    (names : list string) (rs : list (option (string * report))) :
  Forall2 (yields accept v) names rs ->
  NoDup names ->
  NoDup (report_keys rs) /\ incl (report_keys rs) names.
Proof.
  induction 1 as [| name r names rs Hy _ IH]; intros Hnd; simpl.
  - split; [constructor | intros k []].
  - inversion Hnd as [| ? ? Hnin Hnd']. subst.
    destruct (IH Hnd') as [IHnd IHincl].
    destruct r as [[n rep] |]; simpl.
    + destruct Hy as [-> _]. split.
      * constructor; [| assumption]. intros Hin. apply Hnin. now apply IHincl.
      * intros k [<- | Hk]; [now left | right; now apply IHincl].
    + split; [assumption | intros k Hk; right; now apply IHincl].
Qed.

Lemma assemble_value_from (rs : list (option (string * report)))
    (out : list (string * value)) (k : string) (rep : report) :
  NoDup (report_keys rs) ->
  In (Some (k, rep)) rs ->
  assoc k
    (fold_left
       (fun out r =>
          match r with
          | Some (name, rep) => obj_set out name (report_value rep)
          | None => out
          end) rs out)
  = Some (report_value rep).
Proof.
  assert (Hother : forall rs out,
             ~ In k (report_keys rs) ->
             assoc k
               (fold_left
                  (fun out r =>
                     match r with
                     | Some (name, rep) => obj_set out name (report_value rep)
                     | None => out
                     end) rs out)
             = assoc k out).
  { clear. induction rs as [| r rs IH]; intros out Hnin; simpl; [reflexivity |].
    destruct r as [[n rep] |]; simpl in Hnin.
    - rewrite IH by (intros H; apply Hnin; now right).
      apply assoc_obj_set_other. intros ->. apply Hnin. now left.
    - now apply IH. }
  revert out. induction rs as [| r rs IH]; intros out Hnd Hin; [destruct Hin |].
  simpl. destruct Hin as [-> | Hin].
  - simpl in Hnd. inversion Hnd as [| ? ? Hnin _]. subst.
    rewrite Hother by assumption. apply assoc_obj_set_same.
  - apply IH; [| assumption].
    destruct r as [[n rep'] |]; simpl in Hnd; [now inversion Hnd | assumption].
Qed.

(** How [properties] runs under the conditions of its key theorem. *)
Lemma properties_runs
    (validate : list value -> value -> value -> result report)
    (reIsDeepProp : string -> bool) (has_parsed_path : value -> string -> bool)
    (settle_order : list (option (string * report)) -> list (option (string * report)))
    (accept : list (string * value)) (v : value) (f : field) :
  typeof v = "object" ->
  v <> VNull ->
  (forall name, In name (keys_of accept) -> isKey reIsDeepProp name v = true) ->
  (forall name schema, In (name, schema) accept -> lodash_isObject schema = true) ->
  (forall name schema x,
      In (name, schema) accept -> exists rep, validate [VStr name] x schema = Ok rep) ->
  exists rs,
    property_reports validate reIsDeepProp has_parsed_path accept v (keys_of accept)
    = Ok rs
    /\ Forall2 (yields accept v) (keys_of accept) rs
    /\ properties validate reIsDeepProp has_parsed_path settle_order accept v
         (with_value f v)
       = Ok (VArr (flatten_issues rs),
             set_report_value (with_value f v) (obj (assemble (settle_order rs)))).
Proof.
  intros Hobj Hnull Hnames Hschemas Hsettle.
  destruct (property_reports_yield validate reIsDeepProp has_parsed_path accept v
              Hobj Hnull Hnames Hschemas Hsettle (keys_of accept) (incl_refl _))
    as (rs & Hrs & Hys).
  exists rs. repeat split; try assumption.
  unfold properties, isNull, isObject. simpl. rewrite Hobj. simpl.
  replace (is_null v) with false by (destruct v; try reflexivity; now elim Hnull).
  now rewrite Hrs.
Qed.

(** X11: for a value that is an object and not [null], declared names
    that lodash takes as keys of it, property schemas that are objects
    and children that settle, in whatever order, what [properties]
    returns is the concatenation, in the declared order, of the issues
    of the child reports, so the rule passes exactly when every child
    report is clean; and, the declared names being distinct, the
    assembled object maps each kept name to the value of its child's
    report. *)
Theorem properties_issues_and_values :
  forall (validate : list value -> value -> value -> result report)
         (reIsDeepProp : string -> bool) (has_parsed_path : value -> string -> bool)
         (settle_order :
            list (option (string * report)) -> list (option (string * report)))
         (accept : list (string * value)) (v : value) (f : field),
    typeof v = "object" ->
    v <> VNull ->
    (forall name, In name (keys_of accept) -> isKey reIsDeepProp name v = true) ->
    (forall name schema, In (name, schema) accept -> lodash_isObject schema = true) ->
    (forall name schema x,
        In (name, schema) accept -> exists rep, validate [VStr name] x schema = Ok rep) ->
    (forall rs, Permutation (settle_order rs) rs) ->
    NoDup (keys_of accept) ->
    exists rs out,
      Forall2
        (fun name r =>
           property_report validate reIsDeepProp has_parsed_path accept v name = Ok r)
        (keys_of accept) rs
      /\ properties validate reIsDeepProp has_parsed_path settle_order accept v
           (with_value f v)
         = Ok (VArr (List.concat (map child_issues rs)),
               set_report_value (with_value f v) (obj out))
      /\ (List.concat (map child_issues rs) = []
          <-> forall k rep, In (Some (k, rep)) rs -> issues rep = [])
      /\ (forall k rep, In (Some (k, rep)) rs -> assoc k out = Some (report_value rep)).
Proof.
  intros validate reIsDeepProp has_parsed_path settle_order accept v f
    Hobj Hnull Hnames Hschemas Hsettle Horder Hnd.
  destruct (properties_runs validate reIsDeepProp has_parsed_path settle_order
              accept v f Hobj Hnull Hnames Hschemas Hsettle)
    as (rs & Hrs & Hys & Hrun).
  exists rs, (assemble (settle_order rs)). split; [| split; [| split]].
  - now apply property_reports_callbacks.
  - now rewrite <- flatten_issues_concat.
  - rewrite concat_nil_iff. split.
    + intros H k rep Hin. apply (H (child_issues (Some (k, rep)))).
      apply in_map_iff. now exists (Some (k, rep)).
    + intros H l Hl. apply in_map_iff in Hl. destruct Hl as (r & <- & Hr).
      destruct r as [[k rep] |]; [now apply (H k rep) | reflexivity].
  - intros k rep Hin. unfold assemble. apply assemble_value_from.
    + apply (Permutation_NoDup (l := report_keys rs)).
      * apply Permutation_sym. unfold report_keys.
        apply Permutation_flat_map, Horder.
      * now apply (report_keys_yields accept v (keys_of accept) rs Hys).
    + now apply (Permutation_in _ (Permutation_sym (Horder rs))).
Qed.

Lemma properties_issues_and_values_witness :
  let accept := [("a", obj [("type", VStr "string")]);
                 ("b", obj [("type", VStr "string"); ("default", VNum (num_of_Z 7))])] in
  let v := obj [("a", VStr "x")] in
  exists rs out,
    properties validate_type deep_by_dot has_path_by_dot (@rev _) accept v (new_field [] v)
    = Ok (VArr (List.concat (map child_issues rs)),
          set_report_value (new_field [] v) (obj out))
    /\ (forall k rep, In (Some (k, rep)) rs -> assoc k out = Some (report_value rep)).
Proof.
  intros accept v.
  destruct (properties_issues_and_values validate_type deep_by_dot has_path_by_dot
              (@rev _) accept v (new_field [] v))
    as (rs & out & _ & Hrun & _ & Hvalues).
  - reflexivity.
  - discriminate.
  - intros name [<- | [<- | []]]; reflexivity.
  - intros name schema [[= <- <-] | [[= <- <-] | []]]; reflexivity.
  - intros name schema x [[= <- <-] | [[= <- <-] | []]]; eexists; reflexivity.
  - intros rs. apply Permutation_sym, Permutation_rev.
  - repeat constructor; simpl; intuition discriminate.
  - exists rs, out. split; [exact Hrun | exact Hvalues].
Defined.

(** X12: a property the value owns is handed to its child as it is,
    [null] and the empty string included, whatever the schema says
    about defaults; for a name without path syntax, the default (a
    literal, or what a producer returns) is what the child gets when
    the value neither owns nor inherits the property. *)
Theorem properties_default_only_when_absent :
  forall (reIsDeepProp : string -> bool) (has_parsed_path : value -> string -> bool)
         (schema v : value) (name : string),
    (forall x, own_property v name x ->
               resolve reIsDeepProp has_parsed_path schema v name = Ok (Some x))
    /\ (forall own inherited d,
          v = VObj own inherited ->
          key_name reIsDeepProp name = true ->
          ~ In name (keys_of own) ->
          ~ In name (keys_of inherited) ->
          lodash_isObject schema = true ->
          has_key schema "default" ->
          get schema "default" = Ok d ->
          resolve reIsDeepProp has_parsed_path schema v name
          = Ok (Some (match d with VFunc ret => ret | _ => d end))).
Proof.
  intros reIsDeepProp has_parsed_path schema v name. split.
  - intros x Hx. apply own_get_spec in Hx. unfold resolve.
    assert (Hown : has_own v name = true) by (unfold has_own; now rewrite Hx).
    rewrite lodash_has_key.
    + rewrite Hown. simpl. now rewrite (get_own v name x Hx).
    + unfold isKey. replace (in_object name v) with true; [apply orb_true_r |].
      unfold in_object. destruct v; try (now rewrite Hown).
      simpl in Hx. now rewrite Hx.
  - intros own inherited d -> Hkey Hown Hinh Hobj Hdecl Hd.
    apply assoc_none in Hown, Hinh. apply declares_spec in Hdecl.
    unfold resolve. rewrite lodash_has_key by (unfold isKey; now rewrite Hkey).
    unfold has_own. simpl. rewrite Hown, Hinh. simpl.
    rewrite (js_in_object "default" schema Hobj), Hdecl. simpl. rewrite Hd. simpl.
    now destruct d.
Qed.

Lemma properties_default_only_when_absent_witness :
  resolve deep_by_dot has_path_by_dot (obj [("default", VStr "d")]) (obj [("a", VNull)]) "a"
  = Ok (Some VNull)
  /\ resolve deep_by_dot has_path_by_dot (obj [("default", VFunc (VStr "made"))])
       (obj [("a", VNull)]) "b"
     = Ok (Some (VStr "made")).
Proof.
  split.
  - apply (properties_default_only_when_absent deep_by_dot has_path_by_dot
             (obj [("default", VStr "d")]) (obj [("a", VNull)]) "a").
    repeat constructor.
  - destruct (properties_default_only_when_absent deep_by_dot has_path_by_dot
                (obj [("default", VFunc (VStr "made"))]) (obj [("a", VNull)]) "b")
      as [_ Habsent].
    apply (Habsent [("a", VNull)] [] (VFunc (VStr "made"))); try reflexivity.
    + simpl. intuition discriminate.
    + intros [].
    + left. exists (VFunc (VStr "made")). repeat constructor.
Defined.

(** ** [required] before [properties] *)



(** ** [isCoordsString] before [toCoords] *)

(** X15: when [isCoordsString] passes on a string, the numbers that
    [toCoords] makes of it and that are not [NaN] are exactly two, a
    longitude in [[-180, 180]] followed by a latitude in [[-90, 90]];
    when the string has two tokens, [toCoords] returns just that pair. *)
Theorem isCoordsString_then_toCoords :
  forall (a a' : value) (s : string) (f f' : field),
    isCoordsString a (VStr s) f = Ok (VBool true) ->
    exists lon lat,
      coords_in_range lon lat = true
      /\ toCoords_filter a' (VStr s) f'
         = Ok (VArr (map VNum (map parseFloat (split "," s))))
      /\ filter (fun n => negb (is_nan n)) (map parseFloat (split "," s)) = [lon; lat]
      /\ (List.length (split "," s) = 2%nat ->
          toCoords_filter a' (VStr s) f' = Ok (VArr [VNum lon; VNum lat])).
Proof.
  intros a a' s f f' Hpass. unfold isCoordsString in Hpass.
  injection Hpass as Hpass. apply coords_test in Hpass.
  destruct Hpass as (lon & lat & Hcoords & Hrange).
  exists lon, lat. unfold toCoords_filter. rewrite map_map.
  repeat split; try assumption.
  intros Hlen. revert Hcoords.
  destruct (split "," s) as [| t1 [| t2 [| ? ?]]]; try discriminate. simpl.
  destruct (is_nan (parseFloat t1)), (is_nan (parseFloat t2)); simpl;
    try discriminate.
  now intros [= -> ->].
Qed.

Lemma isCoordsString_then_toCoords_witness :
  exists lon lat,
    coords_in_range lon lat = true
    /\ toCoords_filter VUndefined (VStr "30.5,-89") (new_field [] VUndefined)
       = Ok (VArr [VNum lon; VNum lat]).
Proof.
  destruct (isCoordsString_then_toCoords VUndefined VUndefined "30.5,-89"
              (new_field [] VUndefined) (new_field [] VUndefined) eq_refl)
    as (lon & lat & Hrange & _ & _ & Htwo).
  exists lon, lat. split; [exact Hrange | apply Htwo; reflexivity].
Defined.

(** ** [langMapDefault] *)

Lemma obj_set_twice (out : list (string * value)) (k : string) (x : value) :
  obj_set (obj_set out k x) k x = obj_set out k x.
Proof.
  induction out as [| [k' y] out IH]; simpl.
  - now rewrite String.eqb_refl.
  - destruct (String.eqb k' k) eqn:Hk; simpl; rewrite Hk; [reflexivity |].
    now rewrite IH.
Qed.

Lemma get_VObj (own inherited : list (string * value)) (k : string) :
  get (VObj own inherited) k
  = Ok (match assoc k own with
        | Some x => x
        | None => match assoc k inherited with
                  | Some x => x
                  | None => VUndefined
                  end
        end).
Proof.
  simpl. destruct (assoc k own); [reflexivity |].
  now destruct (assoc k inherited).
Qed.

(** X16: [langMapDefault] raises on [null] and returns any other value
    without a truthy [default] unchanged.  On an object whose [default]
    is truthy it returns the object with a truthy entry for the locale:
    the entry it had if that was truthy, else the default; every other
    property reads as before; and applying the filter again changes
    nothing. *)
Theorem langMapDefault_fills_locale :
  forall (locale : string) (f : field),
    langMapDefault_filter locale VNull f = Throw
    /\ (forall v d, v <> VNull -> get v "default" = Ok d -> truthy d = false ->
          langMapDefault_filter locale v f = Ok v)
    /\ (forall own inherited d current,
          get (VObj own inherited) "default" = Ok d ->
          truthy d = true ->
          get (VObj own inherited) locale = Ok current ->
          exists r,
            langMapDefault_filter locale (VObj own inherited) f = Ok r
            /\ get r locale = Ok (if truthy current then current else d)
            /\ (forall k, k <> locale -> get r k = get (VObj own inherited) k)
            /\ langMapDefault_filter locale r f = Ok r).
Proof.
  intros locale f. split; [reflexivity | split].
  - intros v d Hn Hd Hf. unfold langMapDefault_filter.
    destruct (String.eqb (typeof v) "object"); [| reflexivity].
    rewrite Hd. simpl. now rewrite Hf.
  - intros own inherited d current Hd Ht Hcur.
    set (x := if truthy current then current else d).
    assert (Hx : truthy x = true) by (subst x; destruct (truthy current) eqn:E; assumption).
    exists (VObj (obj_set own locale x) inherited).
    assert (Hrun : langMapDefault_filter locale (VObj own inherited) f
                   = Ok (VObj (obj_set own locale x) inherited)).
    { unfold langMapDefault_filter.
      change (String.eqb (typeof (VObj own inherited)) "object") with true.
      cbv iota. rewrite Hd. cbn [bind]. rewrite Ht, Hcur. reflexivity. }
    assert (Hloc : get (VObj (obj_set own locale x) inherited) locale = Ok x).
    { rewrite get_VObj. now rewrite assoc_obj_set_same. }
    assert (Hother : forall k, k <> locale ->
               get (VObj (obj_set own locale x) inherited) k
               = get (VObj own inherited) k).
    { intros k Hk. rewrite !get_VObj. now rewrite (assoc_obj_set_other own k locale x Hk). }
    split; [exact Hrun | split; [exact Hloc | split; [exact Hother |]]].
    assert (Hd' : exists d', get (VObj (obj_set own locale x) inherited) "default" = Ok d'
                             /\ truthy d' = true).
    { destruct (String.eqb "default" locale) eqn:Hl.
      - apply String.eqb_eq in Hl. subst locale. exists x. now split.
      - apply String.eqb_neq in Hl. exists d. rewrite (Hother _ Hl). now split. }
    destruct Hd' as (d' & Hd' & Ht').
    unfold langMapDefault_filter.
    change (String.eqb (typeof (VObj (obj_set own locale x) inherited)) "object")
      with true.
    cbv iota. rewrite Hd'. cbn [bind]. rewrite Ht', Hloc. cbn [bind].
    unfold js_or. rewrite Hx. now rewrite obj_set_twice.
Qed.

Lemma langMapDefault_fills_locale_witness :
  let v := obj [("default", VStr "Hello"); ("ru", VStr "")] in
  exists r,
    langMapDefault_filter "ru" v (new_field [] v) = Ok r
    /\ get r "ru" = Ok (VStr "Hello")
    /\ langMapDefault_filter "ru" (VStr "s") (new_field [] v) = Ok (VStr "s").
Proof.
  intros v.
  destruct (langMapDefault_fills_locale "ru" (new_field [] v)) as (_ & Hskip & Hfill).
  destruct (Hfill [("default", VStr "Hello"); ("ru", VStr "")] [] (VStr "Hello") (VStr "")
              eq_refl eq_refl eq_refl) as (r & Hrun & Hloc & _).
  exists r. split; [exact Hrun | split; [exact Hloc |]].
  apply (Hskip (VStr "s") VUndefined); [discriminate | reflexivity | reflexivity].
Defined.

Example langMapDefault_sample :
  langMapDefault_filter "en" (obj [("default", VStr "Hello"); ("ru", VStr "Privet")])
    (new_field [] VUndefined)
  = Ok (obj [("default", VStr "Hello"); ("ru", VStr "Privet"); ("en", VStr "Hello")]).
Proof. reflexivity. Qed.

(** ** [toInteger] *)






















Example toInteger_samples :
  toInteger_filter (fun _ => "") VUndefined (VStr "12.7px") (new_field [] (VStr "12.7px"))
  = VNum (num_of_Z 12)
  /\ toInteger_filter (fun _ => "") VUndefined (VStr "abc") (new_field [] (VStr "abc"))
     = VNum (num_of_Z 0)
  /\ toInteger_filter (fun _ => "") VUndefined (VStr "0x1F") (new_field [] (VStr "0x1F"))
     = VNum (num_of_Z 31)
  /\ toInteger_filter (fun _ => "") VUndefined (VStr "9007199254740993")
       (new_field [] (VStr "9007199254740993"))
     = VNum (num_of_Z 9007199254740992).
Proof. repeat split. Qed.

(** ** [toArray] *)













Example toArray_samples :
  toArray_filter (SepValue (VStr ", ")) (VStr "a, b,c") (new_field [] (VStr "a, b,c"))
  = Ok (VArr [VStr "a"; VStr "b,c"],
        with_value (new_field [] (VStr "a, b,c")) (VArr [VStr "a"; VStr "b,c"]))
  /\ toArray_filter (SepValue VUndefined) (VStr "a, b,c") (new_field [] (VStr "a, b,c"))
     = Ok (VArr [VStr "a"; VStr " b"; VStr "c"],
           with_value (new_field [] (VStr "a, b,c"))
             (VArr [VStr "a"; VStr " b"; VStr "c"]))
  /\ toArray_filter (SepValue (VStr "")) (VStr "né") (new_field [] (VStr "né"))
     = Ok (VArr [VStr "n"; VStr "é"],
           with_value (new_field [] (VStr "né")) (VArr [VStr "n"; VStr "é"])).
Proof. repeat split. Qed.

(** ** [regexp] and [pattern] *)

(** X19: on a field that holds a string, [regexp] and [pattern] return
    the same verdict, the answer of the regular expression for that
    string; on a field that holds anything else [regexp] returns [true]
    and [pattern] returns nothing, that is [undefined]. *)
Theorem regexp_pattern_verdicts :
  forall (ToString : value -> string) (test : string -> bool) (f : field),
    (forall s : string,
        regexp ToString test (VStr s) (with_value f (VStr s)) = VBool (test s)
        /\ pattern ToString test (VStr s) (with_value f (VStr s)) = VBool (test s))
    /\ (forall v : value,
          typeof v <> "string" ->
          regexp ToString test v (with_value f v) = VBool true
          /\ pattern ToString test v (with_value f v) = VUndefined).
Proof.
  intros ToString test f. split.
  - intros s. split; reflexivity.
  - intros v Hv. unfold regexp, pattern, isString. simpl.
    replace (String.eqb (typeof v) "string") with false
      by (symmetry; now apply String.eqb_neq).
    split; reflexivity.
Qed.

Lemma regexp_pattern_verdicts_witness :
  regexp (fun _ => "1") (fun _ => false) (VNum (num_of_Z 1))
    (new_field [] (VNum (num_of_Z 1))) = VBool true
  /\ pattern (fun _ => "1") (fun _ => false) (VNum (num_of_Z 1))
       (new_field [] (VNum (num_of_Z 1))) = VUndefined.
Proof.
  apply (regexp_pattern_verdicts (fun _ => "1") (fun _ => false)
           (new_field [] VUndefined)).
  discriminate.
Defined.

(** ** [uuid] *)

Lemma match_chars_length (ps : list (ascii -> bool)) (s : string) :
  match_chars ps s = true -> String.length s = List.length ps.
Proof.
  revert s. induction ps as [| p ps IH]; intros [| c s]; simpl;
    try discriminate; [reflexivity |].
  intros H. apply andb_true_iff in H. destruct H as [_ H]. now rewrite (IH s H).
Qed.

Lemma match_chars_map (g : ascii -> ascii) (ps : list (ascii -> bool)) (s : string) :
  Forall (fun p => forall c, p (g c) = p c) ps ->
  match_chars ps (map_string g s) = match_chars ps s.
Proof.
  intros Hps. revert s. induction Hps as [| p ps Hp _ IH]; intros [| c s]; simpl;
    try reflexivity.
  now rewrite Hp, IH.
Qed.

Lemma hex_case (c : ascii) :
  is_hex (upper_char c) = is_hex c /\ is_hex (lower_char c) = is_hex c
  /\ is_char "-" (upper_char c) = is_char "-" c
  /\ is_char "-" (lower_char c) = is_char "-" c.
Proof.
  destruct c as [b0 b1 b2 b3 b4 b5 b6 b7];
    destruct b0, b1, b2, b3, b4, b5, b6, b7; repeat split.
Qed.

Lemma uuid_pattern_case :
  Forall (fun p => forall c, p (upper_char c) = p c) uuid_pattern
  /\ Forall (fun p => forall c, p (lower_char c) = p c) uuid_pattern.
Proof.
  split; repeat constructor; intros c; apply hex_case.
Qed.

(** X20: [uuid] passes on every value that is falsy or not a string,
    the empty string included.  On any other string, with the parameter
    [true], it passes only on strings of 36 characters, and the case of
    the letters makes no difference: the string in upper case and in
    lower case gets the same verdict. *)
Theorem uuid_shape_and_case :
  forall (ToString : value -> string) (accept : value) (f : field),
    (forall v, truthy v = false \/ typeof v <> "string" ->
               uuid ToString accept v f = VBool true)
    /\ (forall s, s <> "" ->
          uuid ToString (VBool true) (VStr s) f = VBool true ->
          String.length s = 36%nat)
    /\ (forall s, s <> "" ->
          uuid ToString accept (VStr (toUpperCase s)) f = uuid ToString accept (VStr s) f
          /\ uuid ToString accept (VStr (toLowerCase s)) f
             = uuid ToString accept (VStr s) f).
Proof.
  intros ToString accept f. split; [| split].
  - intros v [Hv | Hv]; unfold uuid.
    + now rewrite Hv.
    + apply String.eqb_neq in Hv. rewrite Hv. now rewrite orb_true_r.
  - intros s Hs. unfold uuid. simpl.
    destruct s as [| c s]; [now elim Hs |]. simpl.
    intros [= H]. destruct (uuidRegex_test (String c s)) eqn:Ht; [| discriminate].
    exact (match_chars_length uuid_pattern (String c s) Ht).
  - intros s Hs. destruct s as [| c s]; [now elim Hs |].
    unfold uuid. simpl. unfold uuidRegex_test.
    change (String (upper_char c) (toUpperCase s)) with (toUpperCase (String c s)).
    change (String (lower_char c) (toLowerCase s)) with (toLowerCase (String c s)).
    unfold toUpperCase, toLowerCase.
    destruct uuid_pattern_case as [Hup Hlow].
    now rewrite (match_chars_map upper_char _ _ Hup),
      (match_chars_map lower_char _ _ Hlow).
Qed.

Lemma uuid_shape_and_case_witness :
  uuid (fun _ => "") (VBool true) (VNum (num_of_Z 5)) (new_field [] VUndefined) = VBool true
  /\ String.length "123e4567-e89b-12d3-a456-426614174000" = 36%nat.
Proof.
  destruct (uuid_shape_and_case (fun _ => "") (VBool true) (new_field [] VUndefined))
    as (Habstain & Hlen & _).
  split.
  - apply Habstain. right. discriminate.
  - apply Hlen; [discriminate | reflexivity].
Defined.

(** ** [shortTime] *)

Lemma match_prefix_app (ps : list (ascii -> bool)) (s : string) :
  match_prefix ps s = true <->
  exists hit post, s = (hit ++ post)%string /\ match_chars ps hit = true.
Proof.
  revert s. induction ps as [| p ps IH]; intros s; simpl.
  - split; [intros _; now exists "", s | reflexivity].
  - destruct s as [| c s].
    + split; [discriminate |].
      intros ([| d hit] & post & Heq & Hm); simpl in *; discriminate.
    + rewrite andb_true_iff, IH. split.
      * intros (Hc & hit & post & -> & Hm).
        exists (String c hit), post. simpl. now rewrite Hc, Hm.
      * intros ([| d hit] & post & Heq & Hm); simpl in *; [discriminate |].
        injection Heq as -> ->. apply andb_true_iff in Hm. destruct Hm as [Hd Hm].
        split; [assumption | now exists hit, post].
Qed.

Lemma search_app (ps : list (ascii -> bool)) (s : string) :
  search ps s = true <->
  exists pre hit post, s = (pre ++ hit ++ post)%string /\ match_chars ps hit = true.
Proof.
  induction s as [| c s IH].
  - simpl. rewrite orb_false_r, match_prefix_app. split.
    + intros (hit & post & Heq & Hm). now exists "", hit, post.
    + intros ([| d pre] & hit & post & Heq & Hm); simpl in Heq; [| discriminate].
      now exists hit, post.
  - change (search ps (String c s))
      with (match_prefix ps (String c s) || search ps s).
    rewrite orb_true_iff, match_prefix_app, IH. split.
    + intros [(hit & post & Heq & Hm) | (pre & hit & post & -> & Hm)].
      * now exists "", hit, post.
      * now exists (String c pre), hit, post.
    + intros ([| d pre] & hit & post & Heq & Hm); simpl in Heq.
      * left. now exists hit, post.
      * right. injection Heq as -> ->. now exists pre, hit, post.
Qed.

(** X21: [shortTime] with the parameter [true] passes on a string
    exactly when the string contains, anywhere, two digits, a colon and
    two digits, the first digit at most [2] and the third at most [5]:
    text before and after is accepted, and so are the hours 24 to 29. *)
Theorem shortTime_contains_pattern :
  forall (ToString : value -> string) (s : string) (f : field),
    shortTime ToString (VBool true) (VStr s) f = VBool true
    <-> exists pre h1 h2 m1 m2 post,
          s = (pre ++ String h1 (String h2 (String ":" (String m1 (String m2 post)))))%string
          /\ in_range "0" "2" h1 = true /\ is_digit h2 = true
          /\ in_range "0" "5" m1 = true /\ is_digit m2 = true.
Proof.
  intros ToString s f. unfold shortTime, shortTimeRegex_test. simpl. split.
  - intros [= H]. destruct (search shortTime_pattern s) eqn:Hs; [| discriminate].
    apply search_app in Hs. destruct Hs as (pre & hit & post & -> & Hm).
    destruct hit as [| h1 [| h2 [| c [| m1 [| m2 [| ? ?]]]]]]; simpl in Hm;
      try discriminate; try (rewrite ?andb_false_r in Hm; discriminate).
    repeat (apply andb_true_iff in Hm; destruct Hm as [? Hm]).
    unfold is_char in *.
    match goal with H : Ascii.eqb c ":" = true |- _ => apply Ascii.eqb_eq in H; subst c end.
    exists pre, h1, h2, m1, m2, post. simpl. repeat split; assumption.
  - intros (pre & h1 & h2 & m1 & m2 & post & -> & H1 & H2 & H3 & H4).
    f_equal.
    assert (Hs : search shortTime_pattern
                   (pre ++ String h1 (String h2 (String ":" (String m1 (String m2 post)))))
                 = true).
    { apply search_app.
      exists pre, (String h1 (String h2 (String ":" (String m1 (String m2 ""))))), post.
      split; [reflexivity |]. simpl. now rewrite H1, H2, H3, H4. }
    now rewrite Hs.
Qed.

Lemma shortTime_contains_pattern_witness :
  shortTime (fun _ => "") (VBool true) (VStr "at 29:59h") (new_field [] VUndefined)
  = VBool true.
Proof.
  apply (shortTime_contains_pattern (fun _ => "") "at 29:59h" (new_field [] VUndefined)).
  exists "at ", "2"%char, "9"%char, "5"%char, "9"%char, "h".
  repeat split.
Defined.

(** ** [email] and [emailOrPhone] *)

Lemma split_length (c : ascii) (s : string) :
  List.length (split c s) = S (count_chars (is_char c) s).
Proof.
  induction s as [| d s IH]; [reflexivity |].
  simpl. unfold is_char at 1.
  destruct (Ascii.eqb d c); simpl; [now rewrite IH |].
  destruct (split c s); simpl in *; [discriminate IH | assumption].
Qed.

Lemma all_chars_impl (p q : ascii -> bool) (s : string) :
  (forall c, p c = true -> q c = true) -> all_chars p s = true -> all_chars q s = true.
Proof.
  intros Hpq. induction s as [| c s IH]; simpl; [reflexivity |].
  intros H. apply andb_true_iff in H. destruct H as [Hc Hs].
  now rewrite (Hpq c Hc), IH.
Qed.

Lemma all_chars_pieces (p : ascii -> bool) (c : ascii) (s : string) :
  p c = true ->
  forallb (all_chars p) (split c s) = true -> all_chars p s = true.
Proof.
  intros Hc. induction s as [| d s IH]; [reflexivity |].
  simpl (split c (String d s)). destruct (Ascii.eqb d c) eqn:Hd.
  - apply Ascii.eqb_eq in Hd. subst d. simpl. intros H. now rewrite Hc, IH.
  - destruct (split c s) as [| t ts]; simpl in *; intros H.
    + rewrite andb_true_r in H. apply andb_true_iff in H. destruct H as [-> _].
      now rewrite IH.
    + apply andb_true_iff in H. destruct H as [H Hts].
      apply andb_true_iff in H. destruct H as [-> Ht].
      rewrite IH; [reflexivity | now rewrite Ht, Hts].
Qed.

Section CaseMap.

Variable g : ascii -> ascii.
Hypothesis g_at : forall c, Ascii.eqb (g c) "@" = Ascii.eqb c "@".
Hypothesis g_dot : forall c, Ascii.eqb (g c) "." = Ascii.eqb c ".".
Hypothesis g_local : forall c, is_local_char (g c) = is_local_char c.
Hypothesis g_host : forall c, is_host_char (g c) = is_host_char c.
Hypothesis g_alnum : forall c, is_alnum (g c) = is_alnum c.
Hypothesis g_digit : forall c, is_digit (g c) = is_digit c.

Lemma split_map (c : ascii) (s : string) :
  (forall x, Ascii.eqb (g x) c = Ascii.eqb x c) ->
  split c (map_string g s) = map (map_string g) (split c s).
Proof.
  intros Hc. induction s as [| d s IH]; [reflexivity |].
  simpl. rewrite Hc, IH. destruct (Ascii.eqb d c); [reflexivity |].
  now destruct (split c s).
Qed.

Lemma all_chars_map (p : ascii -> bool) (s : string) :
  (forall c, p (g c) = p c) -> all_chars p (map_string g s) = all_chars p s.
Proof.
  intros Hp. induction s as [| c s IH]; simpl; [reflexivity | now rewrite Hp, IH].
Qed.

Lemma length_map (s : string) : String.length (map_string g s) = String.length s.
Proof.
  induction s as [| c s IH]; simpl; [reflexivity | now rewrite IH].
Qed.

Lemma forallb_map_string (q : string -> bool) (ls : list string) :
  (forall l, q (map_string g l) = q l) ->
  forallb q (map (map_string g) ls) = forallb q ls.
Proof.
  intros Hq. induction ls as [| l ls IH]; simpl; [reflexivity | now rewrite Hq, IH].
Qed.

Lemma ipv4_like_map (domain : string) :
  ipv4_like (map_string g domain) = ipv4_like domain.
Proof.
  unfold ipv4_like. rewrite (split_map "." domain g_dot).
  destruct (split "." domain) as [| a [| b [| c [| d [| ? ?]]]]]; try reflexivity.
  simpl. now rewrite !length_map, !(all_chars_map is_digit _ g_digit).
Qed.

Lemma host_like_map (domain : string) :
  host_like (map_string g domain) = host_like domain.
Proof.
  unfold host_like. rewrite (split_map "." domain g_dot).
  destruct (split "." domain) as [| first more]; [reflexivity |].
  simpl. rewrite length_map, (all_chars_map is_host_char _ g_host). f_equal.
  apply forallb_map_string. intros l.
  now rewrite length_map, (all_chars_map is_alnum _ g_alnum).
Qed.

Lemma emailRegex_test_map (s : string) :
  emailRegex_test (map_string g s) = emailRegex_test s.
Proof.
  unfold emailRegex_test. rewrite (split_map "@" s g_at).
  destruct (split "@" s) as [| local [| domain [| ? ?]]]; try reflexivity.
  simpl. now rewrite length_map, (all_chars_map is_local_char _ g_local),
           ipv4_like_map, host_like_map.
Qed.

End CaseMap.

Lemma email_classes_case (c : ascii) :
  (Ascii.eqb (upper_char c) "@" = Ascii.eqb c "@"
   /\ Ascii.eqb (upper_char c) "." = Ascii.eqb c "."
   /\ is_local_char (upper_char c) = is_local_char c
   /\ is_host_char (upper_char c) = is_host_char c
   /\ is_alnum (upper_char c) = is_alnum c
   /\ is_digit (upper_char c) = is_digit c)
  /\ (Ascii.eqb (lower_char c) "@" = Ascii.eqb c "@"
      /\ Ascii.eqb (lower_char c) "." = Ascii.eqb c "."
      /\ is_local_char (lower_char c) = is_local_char c
      /\ is_host_char (lower_char c) = is_host_char c
      /\ is_alnum (lower_char c) = is_alnum c
      /\ is_digit (lower_char c) = is_digit c).
Proof.
  destruct c as [b0 b1 b2 b3 b4 b5 b6 b7];
    destruct b0, b1, b2, b3, b4, b5, b6, b7; repeat split.
Qed.

Lemma email_classes_no_space (c : ascii) :
  (is_local_char c = true -> not_space c = true)
  /\ (is_host_char c = true -> not_space c = true)
  /\ (is_alnum c = true -> not_space c = true)
  /\ (is_digit c = true -> not_space c = true).
Proof.
  destruct c as [b0 b1 b2 b3 b4 b5 b6 b7];
    destruct b0, b1, b2, b3, b4, b5, b6, b7; repeat split; discriminate.
Qed.

Lemma domain_no_space (domain : string) :
  ipv4_like domain || host_like domain = true -> all_chars not_space domain = true.
Proof.
  intros H. apply (all_chars_pieces not_space "." domain eq_refl).
  apply orb_true_iff in H. destruct H as [H | H].
  - unfold ipv4_like in H.
    destruct (split "." domain) as [| a [| b [| c [| d [| ? ?]]]]]; try discriminate.
    apply forallb_forall. intros l Hl.
    rewrite forallb_forall in H. specialize (H l Hl).
    apply andb_true_iff in H. destruct H as [_ H].
    revert H. apply all_chars_impl. intros x. apply email_classes_no_space.
  - unfold host_like in H.
    destruct (split "." domain) as [| first more]; [discriminate |].
    apply andb_true_iff in H. destruct H as [H Hmore].
    apply andb_true_iff in H. destruct H as [_ Hfirst].
    simpl. apply andb_true_iff. split.
    + revert Hfirst. apply all_chars_impl. intros x. apply email_classes_no_space.
    + apply forallb_forall. intros l Hl.
      rewrite forallb_forall in Hmore. specialize (Hmore l Hl).
      apply andb_true_iff in Hmore. destruct Hmore as [_ Hmore].
      revert Hmore. apply all_chars_impl. intros x. apply email_classes_no_space.
Qed.

(** X22: the letter case of a string makes no difference to [email].
    A string that [email] accepts (parameter [true]) contains exactly
    one at sign and no white space, and [emailOrPhone] passes on it
    whatever its parameter and whatever the phone check says. *)
Theorem email_case_and_shape :
  forall (ToString : value -> string) (validatePhone : value -> bool)
         (accept : value) (s : string) (f : field),
    email ToString accept (VStr (toUpperCase s)) f = email ToString accept (VStr s) f
    /\ email ToString accept (VStr (toLowerCase s)) f = email ToString accept (VStr s) f
    /\ (email ToString (VBool true) (VStr s) f = VBool true ->
        count_chars (is_char "@") s = 1%nat
        /\ all_chars not_space s = true
        /\ emailOrPhone ToString validatePhone accept (VStr s) f = VBool true).
Proof.
  intros ToString validatePhone accept s f. unfold email, emailOrPhone. simpl.
  split; [| split].
  - unfold toUpperCase. rewrite emailRegex_test_map; [reflexivity | ..];
      intros c; apply email_classes_case.
  - unfold toLowerCase. rewrite emailRegex_test_map; [reflexivity | ..];
      intros c; apply email_classes_case.
  - intros [= H]. destruct (emailRegex_test s) eqn:Ht; [| discriminate].
    split; [| split; [| reflexivity]].
    + pose proof (split_length "@" s) as Hlen. unfold emailRegex_test in Ht.
      destruct (split "@" s) as [| local [| domain [| ? ?]]]; try discriminate.
      simpl in Hlen. now injection Hlen as <-.
    + apply (all_chars_pieces not_space "@" s eq_refl).
      unfold emailRegex_test in Ht.
      destruct (split "@" s) as [| local [| domain [| ? ?]]]; try discriminate.
      apply andb_true_iff in Ht. destruct Ht as [Ht Hdomain].
      apply andb_true_iff in Ht. destruct Ht as [_ Hlocal].
      simpl. rewrite (domain_no_space domain Hdomain). simpl. rewrite andb_true_r.
      revert Hlocal. apply all_chars_impl. intros x. apply email_classes_no_space.
Qed.

Lemma email_case_and_shape_witness :
  count_chars (is_char "@") "Ann.Lee+x@Example.org" = 1%nat
  /\ emailOrPhone (fun _ => "") (fun _ => false) (VBool false)
       (VStr "Ann.Lee+x@Example.org") (new_field [] VUndefined) = VBool true.
Proof.
  destruct (email_case_and_shape (fun _ => "") (fun _ => false) (VBool false)
              "Ann.Lee+x@Example.org" (new_field [] VUndefined))
    as (_ & _ & Hshape).
  destruct (Hshape eq_refl) as (Hat & _ & Hphone).
  split; [exact Hat | exact Hphone].
Defined.

Example email_samples :
  map emailRegex_test ["ann@example.org"; "ann@bc"; "ann@10.0.0.1"; "ann@b.co";
                       "ann lee@example.org"; "ann@@example.org"; "@example.org"]
  = [true; true; true; false; false; false; false].
Proof. reflexivity. Qed.

(** ** [modulo] *)





Example modulo_samples :
  modulo (num_of_Z 0) (num_of_Z 4) (new_field [] VUndefined) = VBool false
  /\ modulo (num_of_Z 5) (num_of_Z (-15)) (new_field [] VUndefined) = VBool true
  /\ modulo (num_of_Z 5) (num_of_Z 7) (new_field [] VUndefined) = VBool false
  /\ modulo (Fin (1 # 2)) (Fin (3 # 2)) (new_field [] VUndefined) = VBool true
  /\ modulo PInf (num_of_Z 0) (new_field [] VUndefined) = VBool true
  /\ modulo (num_of_Z 5) PInf (new_field [] VUndefined) = VBool false.
Proof. repeat split. Qed.
